(** * SunUrban: the CAPEX model and the financial-metrics engine

    A shallow embedding of [pypsa_models/capex_analysis.py],
    [pypsa_models/optimized_scenario_config.py] and
    [pypsa_models/financial_calculator.py], and of the grid searches of
    [pypsa_models/irr_optimizer.py], of
    [pypsa_models/irr_improvement_analysis.py] and of [update_capex_analysis]
    in [archive/Python/run_optimized_scenarios.py], which call them.

    Numbers.  The numeric arguments are floats, as the docstrings declare
    them (the horizon is an [int]); they are read as exact rationals in lowest
    terms ([Qc], with Leibniz equality), and rounding of binary floating point
    is not modelled.  [float('inf')] is a separate constructor.
    Exceptions.  A Python call either returns or raises; [result] records which.
    The two operations of these files that can raise on numbers are modelled
    with their exceptions: [/] on a zero divisor, and [**] on a float, which
    raises [OverflowError] when the power leaves the range of a float and
    gives 0.0 when it is too small for one.
    Objects.  Dictionaries that are shared and mutated live in a store of
    locations, so that [.copy()] and item assignment can be told apart. *)

From Stdlib Require Import ZArith QArith Qcanon Lqa Lia List.
From stdpp Require Import base numbers strings gmap.

Local Open Scope Qc_scope.

(** ** Python runtime: numbers, exceptions, ranges *)

Module Py.

Inductive exn : Type :=
| ZeroDivisionError
| OverflowError
| KeyError (key : string)
| TypeError
| ValueError (msg : string)
| NameError (name : string).

Inductive result (A : Type) : Type :=
| Ok (a : A)
| Raise (e : exn).
Arguments Ok {A} a.
Arguments Raise {A} e.

#[export] Instance result_ret : MRet result := fun A a => Ok a.
#[export] Instance result_bind : MBind result := fun A B k r =>
  match r with
  | Ok a => k a
  | Raise e => Raise e
  end.
#[export] Instance result_fmap : FMap result := fun A B f r =>
  match r with
  | Ok a => Ok (f a)
  | Raise e => Raise e
  end.

(** An integer literal and a decimal literal [n/d]. *)
Definition num (n : Z) : Qc := Qc_of_Z n.
Definition frac (n : Z) (d : positive) : Qc := Q2Qc (n # d).

(** A float that may be [float('inf')]. *)
Inductive pyfloat : Type :=
| Finite (q : Qc)
| Infinity.

(** [x / y]: true division raises on a zero divisor. *)
Definition truediv (x y : Qc) : result Qc :=
  if decide (y = 0) then Raise ZeroDivisionError else Ok (x / y).

(** [abs(x)]. *)
Definition abs (x : Qc) : Qc := if decide (x < 0) then - x else x.

(** The range of a binary64 float under rounding to nearest: a value of
    magnitude [2^1024 - 2^970] or more lies beyond the largest float, and one
    of magnitude [2^-1075] or less rounds to 0.0. *)
Definition float_overflow : Qc := num (2 ^ 1024 - 2 ^ 970).
Definition float_underflow : Qc := frac 1 (2 ^ 1075).

(** The float that a power of exact value [p] gives: [OverflowError] beyond
    the range, 0.0 below it, and [p] itself (not rounded) inside. *)
Definition float_power (p : Qc) : result Qc :=
  if decide (float_overflow ≤ abs p) then Raise OverflowError
  else if decide (abs p ≤ float_underflow) then Ok 0
  else Ok p.

(** [x ** n] for a float [x] and an integer exponent. *)
Definition pow (x : Qc) (n : Z) : result Qc :=
  if decide (0 <= n)%Z then float_power (x ^ Z.to_nat n)
  else if decide (x = 0) then Raise ZeroDivisionError
  else float_power (/ x ^ Z.to_nat (- n)).

(** [range(start, stop)]. *)
Definition range (start stop : Z) : list Z :=
  List.map (fun i => (start + Z.of_nat i)%Z) (seq 0 (Z.to_nat (stop - start))).

End Py.

Import Py.

(** ** capex_analysis.py *)

Module CapexAnalysis.

(** [COST_ASSUMPTIONS]: the numeric entries of the nested dictionary. *)
Record cost_assumptions : Type := {
  solar_pv_cost_per_kw : Qc;
  battery_storage_cost_per_kw : Qc;
  battery_storage_cost_per_kwh : Qc;
  inverter_cost_per_kw : Qc;
  electrical_cost_per_kw : Qc;
  installation_cost_per_kw : Qc;
  engineering_cost_per_kw : Qc;
  contingency_percentage : Qc;
  itc_rate_rate : Qc;
  opex_per_kw_annual : Qc
}.

Definition COST_ASSUMPTIONS : cost_assumptions := {|
  solar_pv_cost_per_kw := num 1200;
  battery_storage_cost_per_kw := num 800;
  battery_storage_cost_per_kwh := num 400;
  inverter_cost_per_kw := num 150;
  electrical_cost_per_kw := num 200;
  installation_cost_per_kw := num 250;
  engineering_cost_per_kw := num 100;
  contingency_percentage := frac 1 10;
  itc_rate_rate := num 0;
  opex_per_kw_annual := num 25
|}.

(** The [costs] dictionary built by [calculate_site_capex]. *)
Record costs : Type := {
  solar_pv : Qc;
  battery_power : Qc;
  battery_energy : Qc;
  battery_total : Qc;
  inverter : Qc;
  electrical : Qc;
  installation : Qc;
  engineering : Qc;
  subtotal : Qc;
  contingency : Qc;
  total_capex : Qc;
  itc_credit : Qc;
  net_capex : Qc;
  cost_per_kw : Qc;
  annual_opex : Qc
}.

Definition calculate_site_capex
    (solar_capacity_kw battery_power_kw battery_energy_kwh : Qc) : result costs :=
  let solar_pv := solar_capacity_kw * solar_pv_cost_per_kw COST_ASSUMPTIONS in
  let battery_power := battery_power_kw * battery_storage_cost_per_kw COST_ASSUMPTIONS in
  let battery_energy := battery_energy_kwh * battery_storage_cost_per_kwh COST_ASSUMPTIONS in
  let battery_total := battery_power + battery_energy in
  let total_inverter_capacity := solar_capacity_kw + battery_power_kw in
  let inverter := total_inverter_capacity * inverter_cost_per_kw COST_ASSUMPTIONS in
  let electrical := solar_capacity_kw * electrical_cost_per_kw COST_ASSUMPTIONS in
  let installation := solar_capacity_kw * installation_cost_per_kw COST_ASSUMPTIONS in
  let engineering := solar_capacity_kw * engineering_cost_per_kw COST_ASSUMPTIONS in
  let subtotal := solar_pv + battery_total + inverter + electrical
                  + installation + engineering in
  let contingency := subtotal * contingency_percentage COST_ASSUMPTIONS in
  let total_capex := subtotal + contingency in
  let itc_credit := total_capex * itc_rate_rate COST_ASSUMPTIONS in
  let net_capex := total_capex - itc_credit in
  cost_per_kw ← truediv total_capex solar_capacity_kw;
  let annual_opex := solar_capacity_kw * opex_per_kw_annual COST_ASSUMPTIONS in
  Ok {| solar_pv := solar_pv;
        battery_power := battery_power;
        battery_energy := battery_energy;
        battery_total := battery_total;
        inverter := inverter;
        electrical := electrical;
        installation := installation;
        engineering := engineering;
        subtotal := subtotal;
        contingency := contingency;
        total_capex := total_capex;
        itc_credit := itc_credit;
        net_capex := net_capex;
        cost_per_kw := cost_per_kw;
        annual_opex := annual_opex |}.

(** The [metrics] dictionary built by [calculate_financial_metrics]. *)
Record metrics : Type := {
  annual_cash_flow : Qc;
  payback_years : pyfloat;
  npv : Qc;
  irr : Qc;
  roi : Qc;
  lcoe_note : string
}.

(** The discounting loop, written twice in the source (for [npv] with the
    discount rate, for [npv_test] with the trial rate):
    [for year in years: acc += annual_cash_flow / ((1 + rate) ** year)]. *)
Fixpoint discount_loop (annual_cash_flow rate : Qc) (years : list Z) (acc : Qc)
    : result Qc :=
  match years with
  | [] => Ok acc
  | year :: rest =>
      factor ← pow (1 + rate) year;
      term ← truediv annual_cash_flow factor;
      discount_loop annual_cash_flow rate rest (acc + term)
  end.

Definition tolerance : Qc := frac 1 1000.

(** The bisection loop [for _ in range(100)], with its three loop variables;
    [irr_test] is unbound ([None]) until the body has run once. *)
Fixpoint irr_loop (annual_cash_flow net_capex : Qc) (project_lifetime : Z)
    (iterations : nat) (irr_low irr_high : Qc) (irr_test : option Qc)
    : result (option Qc) :=
  match iterations with
  | O => Ok irr_test
  | S remaining =>
      let irr_test := (irr_low + irr_high) / num 2 in
      npv_test ← discount_loop annual_cash_flow irr_test
                   (range 1 (project_lifetime + 1)) (- net_capex);
      if decide (abs npv_test < tolerance) then Ok (Some irr_test)
      else if decide (0 < npv_test) then
        irr_loop annual_cash_flow net_capex project_lifetime
                 remaining irr_test irr_high (Some irr_test)
      else
        irr_loop annual_cash_flow net_capex project_lifetime
                 remaining irr_low irr_test (Some irr_test)
  end.

Definition calculate_financial_metrics
    (annual_revenue annual_opex net_capex : Qc)
    (project_lifetime : Z) (discount_rate : Qc) : result metrics :=
  let annual_cash_flow := annual_revenue - annual_opex in
  payback_years ←
    (if decide (0 < annual_cash_flow)
     then Finite <$> truediv net_capex annual_cash_flow
     else Ok Infinity);
  npv ← discount_loop annual_cash_flow discount_rate
          (range 1 (project_lifetime + 1)) (- net_capex);
  irr_test ← irr_loop annual_cash_flow net_capex project_lifetime
               100 (num 0) (frac 1 2) None;
  irr ←
    (if decide (0 < annual_cash_flow)
     then match irr_test with
          | Some r => Ok r
          | None => Raise (NameError "irr_test")
          end
     else Ok (num 0));
  let total_revenue := annual_revenue * num project_lifetime in
  let total_opex := annual_opex * num project_lifetime in
  let total_profit := total_revenue - total_opex - net_capex in
  roi ←
    (if decide (0 < net_capex)
     then (fun q => q * num 100) <$> truediv total_profit net_capex
     else Ok (num 0));
  Ok {| annual_cash_flow := annual_cash_flow;
        payback_years := payback_years;
        npv := npv;
        irr := irr;
        roi := roi;
        lcoe_note := "LCOE requires annual generation data" |}.

(** The default arguments [project_lifetime=25, discount_rate=0.08]. *)
Definition default_project_lifetime : Z := 25.
Definition default_discount_rate : Qc := frac 8 100.

End CapexAnalysis.

(** ** The object store

    A dictionary value is a number or a reference to another dictionary;
    dictionaries live at locations of a store.  Two names may hold the same
    location (aliasing); [.copy()] allocates a new one. *)

Module Store.

Abbreviation loc := positive (only parsing).

Inductive value : Type :=
| Num (q : Qc)
| Ref (l : loc).

Abbreviation dict := (gmap string value) (only parsing).
Abbreviation store := (gmap loc (gmap string value)) (only parsing).

(** Arithmetic on a dictionary raises [TypeError]; so does following a
    number as if it were a dictionary. *)
Definition as_num (v : value) : result Qc :=
  match v with Num q => Ok q | Ref _ => Raise TypeError end.
Definition as_ref (v : value) : result loc :=
  match v with Ref l => Ok l | Num _ => Raise TypeError end.

(** The dictionary at a location (no Python program holds a dangling one). *)
Definition deref (s : store) (l : loc) : result dict :=
  match s !! l with Some d => Ok d | None => Raise TypeError end.

(** [d[key]]. *)
Definition getitem (s : store) (l : loc) (key : string) : result value :=
  d ← deref s l;
  match d !! key with Some v => Ok v | None => Raise (KeyError key) end.

(** [d[key] = v]: updates the dictionary at [l] in place. *)
Definition setitem (s : store) (l : loc) (key : string) (v : value) : result store :=
  d ← deref s l;
  Ok (<[l := <[key := v]> d]> s).

(** [key in d]. *)
Definition contains (s : store) (l : loc) (key : string) : result bool :=
  d ← deref s l;
  Ok (bool_decide (is_Some (d !! key))).

(** [d.copy()]: a new dictionary with the same entries (a shallow copy). *)
Definition copy (s : store) (l : loc) : result (loc * store) :=
  d ← deref s l;
  let l' := fresh (dom s) in
  Ok (l', <[l' := d]> s).

End Store.

Import Store.

(** ** optimized_scenario_config.py *)

Module OptimizedScenarioConfig.

(** The global name [OPTIMIZED_CONFIG] and the dictionaries nested in it. *)
Definition OPTIMIZED_CONFIG : loc := 1%positive.
Definition battery_config_loc : loc := 2%positive.
Definition revenue_streams_loc : loc := 3%positive.
Definition financial_metrics_loc : loc := 4%positive.
Definition sites_loc : loc := 5%positive.
Definition Site_A_loc : loc := 6%positive.
Definition Site_B_loc : loc := 7%positive.
Definition Site_C_loc : loc := 8%positive.

Definition battery_config : gmap string value :=
  list_to_map [
    ("power_fraction", Num (frac 1 2));
    ("duration_hours", Num (frac 1 2));
    ("total_power_kw", Num (num 865));
    ("total_energy_kwh", Num (num 432));
    ("battery_cost_usd", Num (num 320000)) ].

Definition revenue_streams : gmap string value :=
  list_to_map [
    ("base_ppa", Num (num 243000));
    ("platform_fees", Num (num 19000));
    ("grid_services", Num (num 60000));
    ("ev_charging", Num (num 50000));
    ("rec_sales", Num (num 30000));
    ("digital_twin_licensing", Num (num 75000));
    ("total", Num (num 477000)) ].

Definition financial_metrics : gmap string value :=
  list_to_map [
    ("irr_pct", Num (frac 78 10));
    ("payback_years", Num (frac 109 10));
    ("npv_usd", Num (num (-80000)));
    ("annual_cash_flow", Num (num 434000)) ].

Definition Site_A : gmap string value :=
  list_to_map [
    ("solar_kw", Num (num 550));
    ("battery_kw", Num (num 275));
    ("battery_kwh", Num (num 138)) ].

Definition Site_B : gmap string value :=
  list_to_map [
    ("solar_kw", Num (num 380));
    ("battery_kw", Num (num 190));
    ("battery_kwh", Num (num 95)) ].

Definition Site_C : gmap string value :=
  list_to_map [
    ("solar_kw", Num (num 800));
    ("battery_kw", Num (num 400));
    ("battery_kwh", Num (num 200)) ].

Definition sites : gmap string value :=
  list_to_map [
    ("Site_A", Ref Site_A_loc);
    ("Site_B", Ref Site_B_loc);
    ("Site_C", Ref Site_C_loc) ].

Definition optimized_config : gmap string value :=
  list_to_map [
    ("ppa_rate_cents_per_kwh", Num (frac 754 100));
    ("net_capex_usd", Num (num 4710145));
    ("capex_reduction_pct", Num (frac 31 10));
    ("battery_config", Ref battery_config_loc);
    ("revenue_streams", Ref revenue_streams_loc);
    ("financial_metrics", Ref financial_metrics_loc);
    ("sites", Ref sites_loc);
    ("total_solar_kw", Num (num 1730));
    ("total_battery_kw", Num (num 865));
    ("total_battery_kwh", Num (num 433));
    ("annual_generation_mwh", Num (num 3219));
    ("annual_opex_usd", Num (num 43000)) ].

(** The store once the module has been imported. *)
Definition module_store : gmap loc (gmap string value) :=
  list_to_map [
    (OPTIMIZED_CONFIG, optimized_config);
    (battery_config_loc, battery_config);
    (revenue_streams_loc, revenue_streams);
    (financial_metrics_loc, financial_metrics);
    (sites_loc, sites);
    (Site_A_loc, Site_A);
    (Site_B_loc, Site_B);
    (Site_C_loc, Site_C) ].

Definition get_optimized_site_config (site_name : string) (s : store)
    : result (loc * store) :=
  sites ← getitem s OPTIMIZED_CONFIG "sites" ≫= as_ref;
  known ← contains s sites site_name;
  if negb known then Raise (ValueError ("Unknown site: " +:+ site_name))
  else
    site ← getitem s sites site_name ≫= as_ref;
    copy s site.

Definition get_optimized_capex (s : store) : result value :=
  getitem s OPTIMIZED_CONFIG "net_capex_usd".

Definition get_optimized_ppa_rate (s : store) : result value :=
  getitem s OPTIMIZED_CONFIG "ppa_rate_cents_per_kwh".

Definition get_optimized_revenue_streams (s : store) : result (loc * store) :=
  revenue_streams ← getitem s OPTIMIZED_CONFIG "revenue_streams" ≫= as_ref;
  copy s revenue_streams.

End OptimizedScenarioConfig.

(** ** financial_calculator.py *)

Module FinancialCalculator.

Import CapexAnalysis OptimizedScenarioConfig.

(** The dictionary returned by [calculate_current_metrics]; its ['revenue']
    entry is the very dictionary [get_optimized_revenue_streams] returned. *)
Record current_metrics : Type := {
  revenue : loc;
  capex : value;
  opex : value;
  metrics_of : metrics
}.

Definition calculate_current_metrics (s : store)
    : result (current_metrics * store) :=
  '(rev, s) ← get_optimized_revenue_streams s;
  capex ← get_optimized_capex s;
  annual_opex ← getitem s OPTIMIZED_CONFIG "annual_opex_usd";
  total ← getitem s rev "total";
  annual_revenue ← as_num total;
  annual_opex_usd ← as_num annual_opex;
  net_capex ← as_num capex;
  metrics ← calculate_financial_metrics annual_revenue annual_opex_usd net_capex
               25 (frac 8 100);
  Ok ({| revenue := rev; capex := capex; opex := annual_opex;
         metrics_of := metrics |}, s).

(** The local variables of [calculate_scenario] when it returns. *)
Record scenario_locals : Type := {
  local_rev : loc;
  local_capex : Qc;
  local_annual_opex : value;
  local_metrics : metrics
}.

Definition calculate_scenario_body
    (revenue_adjustment capex_adjustment : Qc) (s : store)
    : result (scenario_locals * store) :=
  '(data, s) ← calculate_current_metrics s;
  '(rev, s) ← copy s (revenue data);
  data_capex ← as_num (capex data);
  let capex := data_capex + capex_adjustment in
  let annual_opex := opex data in
  total ← getitem s rev "total" ≫= as_num;
  s ← setitem s rev "total" (Num (total + revenue_adjustment));
  annual_revenue ← getitem s rev "total" ≫= as_num;
  annual_opex_usd ← as_num annual_opex;
  metrics ← calculate_financial_metrics annual_revenue annual_opex_usd capex
               25 (frac 8 100);
  Ok ({| local_rev := rev; local_capex := capex;
         local_annual_opex := annual_opex; local_metrics := metrics |}, s).

(** [calculate_scenario] prints a summary (not modelled) and returns
    [metrics]. *)
Definition calculate_scenario (scenario_name : string)
    (revenue_adjustment capex_adjustment : Qc) (s : store)
    : result (metrics * store) :=
  '(locals, s) ← calculate_scenario_body revenue_adjustment capex_adjustment s;
  Ok (local_metrics locals, s).

End FinancialCalculator.

(** ** Loops and read-only dictionaries *)

Module PyLoop.

(** [for x in xs: body], where the body updates the loop's variables [st]
    and may raise. *)
Fixpoint for_each {A S : Type} (xs : list A) (body : A -> S -> result S) (st : S)
    : result S :=
  match xs with
  | [] => Ok st
  | x :: rest => st' ← body x st; for_each rest body st'
  end.

(** [d[key]] on a dictionary of numbers that is only read. *)
Definition item (d : gmap string Qc) (key : string) : result Qc :=
  match d !! key with Some v => Ok v | None => Raise (KeyError key) end.

(** The truth value of an optional number: [None] and 0 are false. *)
Definition truthy (o : option Qc) : option Qc :=
  match o with
  | Some q => if decide (q = 0) then None else Some q
  | None => None
  end.

End PyLoop.

Import PyLoop.

(** ** capex_analysis.py: [analyze_all_sites_capex] *)

Module CapexAnalysisSites.

Import CapexAnalysis.

(** The variables of the loop over the sites. *)
Module Running.
Record t : Type := {
  sites : gmap string costs;
  total_solar_kw : Qc;
  total_battery_kw : Qc;
  total_battery_kwh : Qc;
  total_capex : Qc;
  total_net_capex : Qc;
  total_opex : Qc
}.
End Running.

(** [analysis['aggregate']]. *)
Module Aggregate.
Record t : Type := {
  total_solar_kw : Qc;
  total_battery_kw : Qc;
  total_battery_kwh : Qc;
  total_capex : Qc;
  total_net_capex : Qc;
  total_opex : Qc;
  cost_per_kw : Qc;
  cost_per_mw : Qc
}.
End Aggregate.

(** An entry of [analysis['scenarios']]: three keys and the keys of
    [metrics] ([**metrics]; no key occurs twice). *)
Module Scenario.
Record t : Type := {
  annual_revenue : Qc;
  annual_opex : Qc;
  net_capex : Qc;
  metrics : CapexAnalysis.metrics
}.
End Scenario.

Module Analysis.
Record t : Type := {
  sites : gmap string costs;
  aggregate : Aggregate.t;
  scenarios : gmap string Scenario.t
}.
End Analysis.

(** The body of [for site_name, capacities in site_capacities.items()]. *)
Definition site_step (entry : string * gmap string Qc) (st : Running.t)
    : result Running.t :=
  let '(site_name, capacities) := entry in
  solar_kw ← item capacities "solar_kw";
  battery_kw ← item capacities "battery_kw";
  battery_kwh ← item capacities "battery_kwh";
  site_capex ← calculate_site_capex solar_kw battery_kw battery_kwh;
  Ok {| Running.sites := <[site_name := site_capex]> (Running.sites st);
        Running.total_solar_kw := Running.total_solar_kw st + solar_kw;
        Running.total_battery_kw := Running.total_battery_kw st + battery_kw;
        Running.total_battery_kwh := Running.total_battery_kwh st + battery_kwh;
        Running.total_capex := Running.total_capex st + total_capex site_capex;
        Running.total_net_capex := Running.total_net_capex st + net_capex site_capex;
        Running.total_opex := Running.total_opex st + annual_opex site_capex |}.

(** The body of [for scenario, revenue in annual_revenues.items()]. *)
Definition scenario_step (total_opex total_net_capex : Qc) (entry : string * Qc)
    (scenarios : gmap string Scenario.t) : result (gmap string Scenario.t) :=
  let '(scenario, revenue) := entry in
  metrics ← calculate_financial_metrics revenue total_opex total_net_capex
               default_project_lifetime default_discount_rate;
  Ok (<[scenario := {| Scenario.annual_revenue := revenue;
                       Scenario.annual_opex := total_opex;
                       Scenario.net_capex := total_net_capex;
                       Scenario.metrics := metrics |}]> scenarios).

(** [site_capacities] and [annual_revenues] are given by their items, in the
    order of iteration. *)
Definition analyze_all_sites_capex
    (site_capacities : list (string * gmap string Qc))
    (annual_revenues : list (string * Qc)) : result Analysis.t :=
  st ← for_each site_capacities site_step
         {| Running.sites := ∅;
            Running.total_solar_kw := num 0;
            Running.total_battery_kw := num 0;
            Running.total_battery_kwh := num 0;
            Running.total_capex := num 0;
            Running.total_net_capex := num 0;
            Running.total_opex := num 0 |};
  let total_solar_kw := Running.total_solar_kw st in
  let total_capex := Running.total_capex st in
  let total_net_capex := Running.total_net_capex st in
  let total_opex := Running.total_opex st in
  cost_per_kw ←
    (if decide (0 < total_solar_kw) then truediv total_capex total_solar_kw
     else Ok (num 0));
  cost_per_mw ←
    (if decide (0 < total_solar_kw)
     then (fun q => q * num 1000) <$> truediv total_capex total_solar_kw
     else Ok (num 0));
  scenarios ← for_each annual_revenues (scenario_step total_opex total_net_capex) ∅;
  Ok {| Analysis.sites := Running.sites st;
        Analysis.aggregate :=
          {| Aggregate.total_solar_kw := total_solar_kw;
             Aggregate.total_battery_kw := Running.total_battery_kw st;
             Aggregate.total_battery_kwh := Running.total_battery_kwh st;
             Aggregate.total_capex := total_capex;
             Aggregate.total_net_capex := total_net_capex;
             Aggregate.total_opex := total_opex;
             Aggregate.cost_per_kw := cost_per_kw;
             Aggregate.cost_per_mw := cost_per_mw |};
        Analysis.scenarios := scenarios |}.

End CapexAnalysisSites.

(** ** irr_optimizer.py: the grid searches of [IRROptimizer] *)

Module IrrOptimizer.

Import CapexAnalysis.

(** The attributes set by [__init__]. *)
Record IRROptimizer : Type := {
  target_irr : Qc;
  project_lifetime : Z;
  discount_rate : Qc;
  base_solar_kw : Qc;
  base_battery_kw : Qc;
  base_battery_kwh : Qc;
  base_annual_generation_mwh : Qc;
  base_opex_per_kw : Qc
}.

(** [IRROptimizer(target_irr, project_lifetime, discount_rate)]. *)
Definition init (target_irr : Qc) (project_lifetime : Z) (discount_rate : Qc)
    : IRROptimizer :=
  {| target_irr := target_irr;
     project_lifetime := project_lifetime;
     discount_rate := discount_rate;
     base_solar_kw := num 1730;
     base_battery_kw := num 1730;
     base_battery_kwh := num 3460;
     base_annual_generation_mwh := num 3219;
     base_opex_per_kw := num 25 |}.

Definition calculate_irr_from_params (self : IRROptimizer)
    (ppa_rate net_capex annual_opex : Qc) (annual_generation_mwh : option Qc)
    : result Qc :=
  let annual_generation_mwh :=
    match annual_generation_mwh with
    | None => base_annual_generation_mwh self
    | Some g => g
    end in
  let annual_revenue := ppa_rate * num 10 * annual_generation_mwh in
  metrics ← calculate_financial_metrics annual_revenue annual_opex net_capex
               (project_lifetime self) (discount_rate self);
  Ok (irr metrics).

(** The dictionary returned by [optimize_battery_sizing]. *)
Module BatterySolution.
Record t : Type := {
  battery_kw : Qc;
  battery_kwh : Qc;
  duration_hours : Qc;
  power_fraction : Qc;
  net_capex : Qc;
  irr : Qc;
  payback_years : pyfloat;
  npv : Qc;
  battery_cost : Qc
}.
End BatterySolution.

(** The loop body when [target_capex] is given: the battery cost and the
    other costs are scaled by [capex_scale]. *)
Definition battery_step_scaled (self : IRROptimizer) (ppa_rate : Qc)
    (base_site_capex : costs) (base_net_capex capex_scale : Qc)
    (duration power_frac : Qc) (st : option BatterySolution.t * Qc)
    : result (option BatterySolution.t * Qc) :=
  let '(best_solution, best_irr) := st in
  let base_solar_kw := num 1730 in
  let battery_kw := base_solar_kw * power_frac in
  let battery_kwh := battery_kw * duration in
  let battery_cost_per_kwh := battery_storage_cost_per_kwh COST_ASSUMPTIONS in
  let battery_cost_per_kw := battery_storage_cost_per_kw COST_ASSUMPTIONS in
  let battery_cost := (battery_kw * battery_cost_per_kw
                       + battery_kwh * battery_cost_per_kwh) * capex_scale in
  let other_costs := (base_net_capex - battery_total base_site_capex) * capex_scale in
  let estimated_net_capex := battery_cost + other_costs in
  let annual_revenue := ppa_rate * num 10 * base_annual_generation_mwh self in
  let annual_opex := base_solar_kw * base_opex_per_kw self in
  metrics ← calculate_financial_metrics annual_revenue annual_opex estimated_net_capex
               (project_lifetime self) (discount_rate self);
  if decide (best_irr < irr metrics) then
    Ok (Some {| BatterySolution.battery_kw := battery_kw;
                BatterySolution.battery_kwh := battery_kwh;
                BatterySolution.duration_hours := duration;
                BatterySolution.power_fraction := power_frac;
                BatterySolution.net_capex := estimated_net_capex;
                BatterySolution.irr := irr metrics;
                BatterySolution.payback_years := payback_years metrics;
                BatterySolution.npv := npv metrics;
                BatterySolution.battery_cost := battery_cost |},
        irr metrics)
  else Ok (best_solution, best_irr).

(** The loop body without a target: the CAPEX of each candidate comes from
    [calculate_site_capex]. *)
Definition battery_step_sized (self : IRROptimizer) (ppa_rate : Qc)
    (duration power_frac : Qc) (st : option BatterySolution.t * Qc)
    : result (option BatterySolution.t * Qc) :=
  let '(best_solution, best_irr) := st in
  let base_solar_kw := num 1730 in
  let battery_kw := base_solar_kw * power_frac in
  let battery_kwh := battery_kw * duration in
  site_capex ← calculate_site_capex base_solar_kw battery_kw battery_kwh;
  let net_capex := net_capex site_capex in
  let annual_revenue := ppa_rate * num 10 * base_annual_generation_mwh self in
  let annual_opex := base_solar_kw * base_opex_per_kw self in
  metrics ← calculate_financial_metrics annual_revenue annual_opex net_capex
               (project_lifetime self) (discount_rate self);
  if decide (best_irr < irr metrics) then
    Ok (Some {| BatterySolution.battery_kw := battery_kw;
                BatterySolution.battery_kwh := battery_kwh;
                BatterySolution.duration_hours := duration;
                BatterySolution.power_fraction := power_frac;
                BatterySolution.net_capex := net_capex;
                BatterySolution.irr := irr metrics;
                BatterySolution.payback_years := payback_years metrics;
                BatterySolution.npv := npv metrics;
                BatterySolution.battery_cost := battery_total site_capex |},
        irr metrics)
  else Ok (best_solution, best_irr).

(** [if best_solution is None]: the default built from the target CAPEX. *)
Definition battery_default (self : IRROptimizer) (ppa_rate : Qc)
    (target_capex : option Qc) : result BatterySolution.t :=
  let base_solar_kw := num 1730 in
  net_capex ←
    match truthy target_capex with
    | Some target => Ok target
    | None =>
        site_capex ← calculate_site_capex base_solar_kw base_solar_kw
                       (base_solar_kw * frac 2 1);
        Ok (net_capex site_capex)
    end;
  let annual_revenue := ppa_rate * num 10 * base_annual_generation_mwh self in
  let annual_opex := base_solar_kw * base_opex_per_kw self in
  metrics ← calculate_financial_metrics annual_revenue annual_opex net_capex
               (project_lifetime self) (discount_rate self);
  Ok {| BatterySolution.battery_kw := base_solar_kw;
        BatterySolution.battery_kwh := base_solar_kw * frac 3 2;
        BatterySolution.duration_hours := frac 3 2;
        BatterySolution.power_fraction := frac 1 1;
        BatterySolution.net_capex := net_capex;
        BatterySolution.irr := irr metrics;
        BatterySolution.payback_years := payback_years metrics;
        BatterySolution.npv := npv metrics;
        BatterySolution.battery_cost := net_capex * frac 4 10 |}.

Definition optimize_battery_sizing (self : IRROptimizer) (ppa_rate : Qc)
    (target_capex : option Qc) : result BatterySolution.t :=
  let base_solar_kw := num 1730 in
  st ←
    match truthy target_capex with
    | Some target =>
        base_site_capex ← calculate_site_capex base_solar_kw base_solar_kw
                            (base_solar_kw * frac 2 1);
        let base_net_capex := net_capex base_site_capex in
        capex_scale ← truediv target base_net_capex;
        let battery_durations := [frac 1 2; frac 1 1; frac 3 2; frac 2 1] in
        let battery_power_fractions := [frac 1 2; frac 3 4; frac 1 1] in
        for_each battery_durations
          (fun duration =>
             for_each battery_power_fractions
               (fun power_frac =>
                  battery_step_scaled self ppa_rate base_site_capex base_net_capex
                                      capex_scale duration power_frac))
          (None, - num 1)
    | None =>
        let battery_durations :=
          [frac 1 2; frac 1 1; frac 3 2; frac 2 1; frac 5 2; frac 3 1] in
        let battery_power_fractions := [frac 1 2; frac 3 4; frac 1 1; frac 5 4] in
        for_each battery_durations
          (fun duration =>
             for_each battery_power_fractions
               (fun power_frac =>
                  battery_step_sized self ppa_rate duration power_frac))
          (None, - num 1)
    end;
  match fst st with
  | Some best_solution => Ok best_solution
  | None => battery_default self ppa_rate target_capex
  end.

(** The dictionary returned by [optimize_with_revenue_streams]. *)
Module RevenueSolution.
Record t : Type := {
  base_ppa : Qc;
  base_revenue : Qc;
  platform_fees : Qc;
  grid_services : Qc;
  ev_charging : Qc;
  rec_sales : Qc;
  digital_twin_licensing : Qc;
  total_revenue : Qc;
  net_capex : Qc;
  irr : Qc;
  payback_years : pyfloat;
  npv : Qc
}.
End RevenueSolution.

(** The variables of the revenue search: the best solution and its IRR, and
    [digital_twin] with [total_revenue], which are bound by the innermost loop
    only. *)
Module RevenueSearch.
Record t : Type := {
  best_solution : option RevenueSolution.t;
  best_irr : Qc;
  digital_twin : option Qc;
  total_revenue : option Qc
}.
End RevenueSearch.

Definition grid_services_options : list Qc :=
  [num 0; num 25000; num 50000; num 75000; num 100000].
Definition ev_charging_options : list Qc :=
  [num 0; num 10000; num 20000; num 30000; num 50000].
Definition rec_sales_options : list Qc :=
  [num 0; num 10000; num 20000; num 30000].
Definition digital_twin_options : list Qc :=
  [num 0; num 25000; num 50000; num 75000; num 100000].

(** The innermost loop, whose body is the assignment to [total_revenue]
    alone. *)
Definition digital_twin_step (base_revenue platform_fee_revenue
    grid_services ev_charging rec_sales digital_twin : Qc) (st : RevenueSearch.t)
    : result RevenueSearch.t :=
  Ok {| RevenueSearch.best_solution := RevenueSearch.best_solution st;
        RevenueSearch.best_irr := RevenueSearch.best_irr st;
        RevenueSearch.digital_twin := Some digital_twin;
        RevenueSearch.total_revenue :=
          Some (base_revenue + grid_services + ev_charging + rec_sales
                + platform_fee_revenue + digital_twin) |}.

(** The body of [for rec_sales in rec_sales_options]: the innermost loop, then
    one evaluation with the values it left. *)
Definition rec_sales_step (self : IRROptimizer)
    (base_ppa base_opex base_revenue platform_fee_revenue target_capex
     grid_services ev_charging rec_sales : Qc) (st : RevenueSearch.t)
    : result RevenueSearch.t :=
  st ← for_each digital_twin_options
         (digital_twin_step base_revenue platform_fee_revenue
                            grid_services ev_charging rec_sales) st;
  total_revenue ←
    match RevenueSearch.total_revenue st with
    | Some v => Ok v
    | None => Raise (NameError "total_revenue")
    end;
  metrics ← calculate_financial_metrics total_revenue base_opex target_capex
               (project_lifetime self) (discount_rate self);
  if decide (RevenueSearch.best_irr st < irr metrics) then
    digital_twin ←
      match RevenueSearch.digital_twin st with
      | Some v => Ok v
      | None => Raise (NameError "digital_twin")
      end;
    Ok {| RevenueSearch.best_solution :=
            Some {| RevenueSolution.base_ppa := base_ppa;
                    RevenueSolution.base_revenue := base_revenue;
                    RevenueSolution.platform_fees := platform_fee_revenue;
                    RevenueSolution.grid_services := grid_services;
                    RevenueSolution.ev_charging := ev_charging;
                    RevenueSolution.rec_sales := rec_sales;
                    RevenueSolution.digital_twin_licensing := digital_twin;
                    RevenueSolution.total_revenue := total_revenue;
                    RevenueSolution.net_capex := target_capex;
                    RevenueSolution.irr := irr metrics;
                    RevenueSolution.payback_years := payback_years metrics;
                    RevenueSolution.npv := npv metrics |};
          RevenueSearch.best_irr := irr metrics;
          RevenueSearch.digital_twin := RevenueSearch.digital_twin st;
          RevenueSearch.total_revenue := RevenueSearch.total_revenue st |}
  else Ok st.

Definition optimize_with_revenue_streams (self : IRROptimizer)
    (base_ppa target_capex : Qc) (include_platform_fees : bool)
    : result (option RevenueSolution.t) :=
  let base_opex := num 43000 in
  let base_revenue := base_ppa * num 10 * base_annual_generation_mwh self in
  let platform_fee_revenue :=
    if include_platform_fees then
      let marketplace_fraction := frac 4 10 in
      let platform_fee_rate := frac 15 10 in
      marketplace_fraction * base_annual_generation_mwh self * platform_fee_rate * num 10
    else num 0 in
  st ← for_each grid_services_options
         (fun grid_services =>
            for_each ev_charging_options
              (fun ev_charging =>
                 for_each rec_sales_options
                   (fun rec_sales =>
                      rec_sales_step self base_ppa base_opex base_revenue
                                     platform_fee_revenue target_capex
                                     grid_services ev_charging rec_sales)))
         {| RevenueSearch.best_solution := None;
            RevenueSearch.best_irr := - num 1;
            RevenueSearch.digital_twin := None;
            RevenueSearch.total_revenue := None |};
  Ok (RevenueSearch.best_solution st).

End IrrOptimizer.

(** ** irr_improvement_analysis.py: [analyze_irr_improvements] *)

Module IrrImprovementAnalysis.

Import CapexAnalysis.

(** The returned dictionary, by its items in the order of insertion (the
    eleven keys are distinct; a key is held as its UTF-8 bytes).  The
    constant [12.0 / 9.0] divides by no zero. *)
Definition analyze_irr_improvements
    (base_annual_revenue base_net_capex base_annual_opex : Qc)
    (project_lifetime : Z) (discount_rate : Qc)
    : result (list (string * metrics)) :=
  baseline ← calculate_financial_metrics base_annual_revenue base_annual_opex
                base_net_capex project_lifetime discount_rate;
  let revenue_20pct := base_annual_revenue * frac 120 100 in
  metrics_1 ← calculate_financial_metrics revenue_20pct base_annual_opex
                 base_net_capex project_lifetime discount_rate;
  let revenue_50pct := base_annual_revenue * frac 150 100 in
  metrics_2 ← calculate_financial_metrics revenue_50pct base_annual_opex
                 base_net_capex project_lifetime discount_rate;
  let capex_reduced := base_net_capex * frac 80 100 in
  metrics_3 ← calculate_financial_metrics base_annual_revenue base_annual_opex
                 capex_reduced project_lifetime discount_rate;
  let capex_reduced_30 := base_net_capex * frac 70 100 in
  metrics_4 ← calculate_financial_metrics base_annual_revenue base_annual_opex
                 capex_reduced_30 project_lifetime discount_rate;
  let battery_savings := base_net_capex * frac 40 100 * frac 50 100 in
  let capex_battery_reduction := base_net_capex - battery_savings in
  metrics_5 ← calculate_financial_metrics base_annual_revenue base_annual_opex
                 capex_battery_reduction project_lifetime discount_rate;
  metrics_6 ← calculate_financial_metrics revenue_20pct base_annual_opex
                 capex_reduced project_lifetime discount_rate;
  let revenue_higher_ppa := base_annual_revenue * (num 12 / num 9) in
  metrics_7 ← calculate_financial_metrics revenue_higher_ppa base_annual_opex
                 base_net_capex project_lifetime discount_rate;
  let revenue_grid_services := base_annual_revenue + num 50000 in
  metrics_8 ← calculate_financial_metrics revenue_grid_services base_annual_opex
                 base_net_capex project_lifetime discount_rate;
  let battery_optimization_savings := base_net_capex * frac 40 100 * frac 20 100 in
  let capex_optimized := base_net_capex - battery_optimization_savings in
  metrics_9 ← calculate_financial_metrics base_annual_revenue base_annual_opex
                 capex_optimized project_lifetime discount_rate;
  metrics_10 ← calculate_financial_metrics revenue_50pct base_annual_opex
                  capex_reduced_30 project_lifetime discount_rate;
  Ok [ ("Baseline", baseline);
       ("+20% Revenue", metrics_1);
       ("+50% Revenue", metrics_2);
       ("-20% CAPEX", metrics_3);
       ("-30% CAPEX", metrics_4);
       ("Battery Cost -50%", metrics_5);
       ("+20% Rev & -20% CAPEX", metrics_6);
       ("PPA 12¢/kWh", metrics_7);
       ("+Grid Services", metrics_8);
       ("Optimize Battery", metrics_9);
       ("Best Case", metrics_10) ].

End IrrImprovementAnalysis.

(** ** archive/Python/run_optimized_scenarios.py: [update_capex_analysis] *)

Module RunOptimizedScenarios.

Import CapexAnalysis OptimizedScenarioConfig.

(** The printed summary is not modelled. *)
Definition update_capex_analysis (s : store) : result (metrics * store) :=
  optimized_capex ← get_optimized_capex s;
  '(revenue_streams, s) ← get_optimized_revenue_streams s;
  annual_revenue ← getitem s revenue_streams "total";
  annual_opex ← getitem s OPTIMIZED_CONFIG "annual_opex_usd";
  revenue ← as_num annual_revenue;
  opex ← as_num annual_opex;
  capex ← as_num optimized_capex;
  metrics ← calculate_financial_metrics revenue opex capex 25 (frac 8 100);
  Ok (metrics, s).

End RunOptimizedScenarios.

Import CapexAnalysis OptimizedScenarioConfig FinancialCalculator.

(** ** Vocabulary of the statements

    Nothing below is part of the program: these are the quantities the
    statements speak about. *)

(** The value the discounting loop computes when no division fails: a left
    fold over the years [1..n]. *)
Definition discounted (annual_cash_flow rate : Qc) (years : list nat) (acc : Qc) : Qc :=
  fold_left (fun a y => a + annual_cash_flow / (1 + rate) ^ y) years acc.

(** The textbook sum [Σ_{t=1..horizon} annual_cash_flow / (1 + rate)^t]. *)
Fixpoint discounted_sum (annual_cash_flow rate : Qc) (horizon : nat) : Qc :=
  match horizon with
  | O => 0
  | S t => discounted_sum annual_cash_flow rate t + annual_cash_flow / (1 + rate) ^ S t
  end.

(** A power that is a float and not 0.0: [**] returns it and [/] divides by
    it. *)
Definition in_float_range (p : Qc) : Prop :=
  float_underflow < abs p ∧ abs p < float_overflow.

#[global] Instance in_float_range_dec p : Decision (in_float_range p).
Proof. unfold in_float_range. apply _. Defined.

(** A condition under which neither loop of [calculate_financial_metrics]
    raises.  The NPV loop divides by [(1 + discount_rate) ** year] for each
    year of the horizon: each of these powers is to be a float other than 0.0
    (so the rate is not -1 when there is a year).  The bisection divides by
    [(1 + irr_test) ** year] with [0 <= irr_test <= 0.5]: [1.5 ** horizon] is
    to be a float. *)
Definition npv_defined (project_lifetime : Z) (discount_rate : Qc) : Prop :=
  Forall (fun year => in_float_range ((1 + discount_rate) ^ year))
         (seq 1 (Z.to_nat project_lifetime))
  ∧ frac 3 2 ^ Z.to_nat project_lifetime < float_overflow.

#[global] Instance npv_defined_dec life dr : Decision (npv_defined life dr).
Proof. unfold npv_defined. apply _. Defined.

(** The residual [npv_test] at a trial rate. *)
Definition npv_at (cash capex : Qc) (life : Z) (rate : Qc) : Qc :=
  discounted cash rate (seq 1 (Z.to_nat life)) (- capex).

(** A bound [irr_test] lies in the current bracket. *)
Definition in_bracket (lo hi : Qc) (o : option Qc) : Prop :=
  match o with Some r => lo ≤ r ∧ r ≤ hi | None => False end.

(** [r] is the value of [irr_test] when the bisection loop of
    [calculate_financial_metrics] ends. *)
Definition irr_bracketed (cash capex : Qc) (life : Z) (r : Qc) : Prop :=
  irr_loop cash capex life 100 (num 0) (frac 1 2) None = Ok (Some r)
  ∧ num 0 ≤ r ∧ r ≤ frac 1 2.

(** The bracket [(irr_low, irr_high)] after [n] iterations, none of which
    met the tolerance. *)
Fixpoint irr_bracket_after (cash capex : Qc) (life : Z) (n : nat) (lo hi : Qc)
    : option (Qc * Qc) :=
  match n with
  | O => Some (lo, hi)
  | S k =>
      let t := (lo + hi) / num 2 in
      let v := npv_at cash capex life t in
      if decide (abs v < tolerance) then None
      else if decide (0 < v) then irr_bracket_after cash capex life k t hi
      else irr_bracket_after cash capex life k lo t
  end.

Definition bracket_as_Q (b : option (Qc * Qc)) : option (Q * Q) :=
  match b with Some (lo, hi) => Some (this lo, this hi) | None => None end.

(** The named revenue categories of a revenue-streams dictionary, its
    numeric entries, and the sum of the named ones. *)
Definition revenue_categories : list string :=
  ["base_ppa"; "platform_fees"; "grid_services"; "ev_charging"; "rec_sales";
   "digital_twin_licensing"].

Definition entry (d : gmap string value) (key : string) : option Qc :=
  match d !! key with Some (Num q) => Some q | _ => None end.

Definition named_sum (d : gmap string value) : option Qc :=
  foldr (fun key acc => q ← entry d key; a ← acc; Some (q + a)) (Some 0) revenue_categories.

Definition total_is_sum (d : gmap string value) : Prop :=
  ∃ t, entry d "total" = Some t ∧ named_sum d = Some t.

(** What [financial_calculator.py] reads from a store: [OPTIMIZED_CONFIG]
    holds a revenue table [d] (at [r]) whose total is [t], a net CAPEX [c] and
    an annual OPEX [o]. *)
Record config_view (s : gmap positive (gmap string value)) (r : positive)
    (d : gmap string value) (t o c : Qc) : Prop := {
  view_revenue_streams : getitem s OPTIMIZED_CONFIG "revenue_streams" = Ok (Ref r);
  view_revenue_dict : s !! r = Some d;
  view_total : d !! "total" = Some (Num t);
  view_net_capex : getitem s OPTIMIZED_CONFIG "net_capex_usd" = Ok (Num c);
  view_annual_opex : getitem s OPTIMIZED_CONFIG "annual_opex_usd" = Ok (Num o)
}.

(** A value read through the store, nested dictionaries included: what
    Python's [==] compares. *)
#[warnings="-register-all"]
Inductive pyobj : Type :=
| PNum (q : Qc)
| PDict (entries : list (string * pyobj)).

Fixpoint snapshot (depth : nat) (s : gmap positive (gmap string value)) (v : value)
    : option pyobj :=
  match v with
  | Num q => Some (PNum q)
  | Ref l =>
      match depth with
      | O => None
      | S n =>
          d ← s !! l;
          PDict <$> mapM (fun kv : string * value =>
                            o ← snapshot n s kv.2; Some (kv.1, o))
                         (map_to_list d)
      end
  end.

(** Every dictionary of [s] is the same in [s'], and [OPTIMIZED_CONFIG] reads
    the same, to any depth. *)
Definition config_unchanged (s s' : gmap positive (gmap string value)) : Prop :=
  s ⊆ s'
  ∧ ∀ depth o, snapshot depth s (Ref OPTIMIZED_CONFIG) = Some o →
               snapshot depth s' (Ref OPTIMIZED_CONFIG) = Some o.

(** [l] is a dictionary that did not exist in [s]; neither creating it nor
    any later assignment into it changes what [s] held. *)
Definition fresh_copy (s : gmap positive (gmap string value)) (l : positive)
    (s' : gmap positive (gmap string value)) : Prop :=
  s !! l = None
  ∧ config_unchanged s s'
  ∧ ∀ key v s'', setitem s' l key v = Ok s'' → config_unchanged s s''.

(** *** Vocabulary of the further properties *)

(** The capacities read from a site's dictionary. *)
Definition capacities_of (capacities : gmap string Qc) : option (Qc * Qc * Qc) :=
  solar_kw ← capacities !! "solar_kw";
  battery_kw ← capacities !! "battery_kw";
  battery_kwh ← capacities !! "battery_kwh";
  Some (solar_kw, battery_kw, battery_kwh).

(** The sum of one capacity over the sites. *)
Definition total_of (key : string) (site_capacities : list (string * gmap string Qc)) : Qc :=
  foldr (fun site acc => default 0 (site.2 !! key) + acc) 0 site_capacities.

(** The values of the loop variables of [analyze_all_sites_capex] before the
    first site. *)
Definition initial_running : CapexAnalysisSites.Running.t :=
  {| CapexAnalysisSites.Running.sites := ∅;
     CapexAnalysisSites.Running.total_solar_kw := num 0;
     CapexAnalysisSites.Running.total_battery_kw := num 0;
     CapexAnalysisSites.Running.total_battery_kwh := num 0;
     CapexAnalysisSites.Running.total_capex := num 0;
     CapexAnalysisSites.Running.total_net_capex := num 0;
     CapexAnalysisSites.Running.total_opex := num 0 |}.

(** The example of [capex_analysis.py]'s [__main__] block. *)
Definition example_site_capacities : list (string * gmap string Qc) :=
  [ ("Site_A", {[ "solar_kw" := num 550; "battery_kw" := num 550;
                  "battery_kwh" := num 1100 ]});
    ("Site_B", {[ "solar_kw" := num 380; "battery_kw" := num 380;
                  "battery_kwh" := num 760 ]});
    ("Site_C", {[ "solar_kw" := num 800; "battery_kw" := num 800;
                  "battery_kwh" := num 1600 ]}) ].

Definition example_annual_revenues : list (string * Qc) :=
  [ ("S1", num 290000); ("S2", num 263000); ("S3", num 263000); ("S4", num 193000) ].

(** The net CAPEX [calculate_site_capex] gives the 1730 kW system with a
    battery of [power_frac] of the solar capacity and [duration] hours. *)
Definition sized_net_capex (power_frac duration : Qc) : Qc :=
  num 2090 * num 1730 + num 1045 * (num 1730 * power_frac)
  + num 440 * (num 1730 * power_frac * duration).

(** The cost of that battery at the assumed prices. *)
Definition sized_battery_cost (power_frac duration : Qc) : Qc :=
  num 1730 * power_frac * num 800 + num 1730 * power_frac * duration * num 400.

(** ** Arithmetic of exact rationals *)

Lemma Qc_eq_Qeq (a b : Qc) : a = b <-> (this a == this b)%Q.
Proof. split; [intros ->; reflexivity | apply Qc_is_canon]. Qed.

Lemma half_as_product (x : Qc) : x / num 2 = x * frac 1 2.
Proof. unfold Qcdiv. f_equal. Qed.

Ltac qc_unfold :=
  rewrite ?half_as_product in *;
  unfold tolerance, num, frac, Qc_of_Z, inject_Z in *;
  unfold Qcle, Qclt, Qcminus, Qcplus, Qcmult, Qcopp, Q2Qc in *;
  cbn [this] in *;
  rewrite ?Qred_correct in *.

Ltac qc_lra :=
  repeat match goal with
         | H : @eq Qc _ _ |- _ => apply Qc_eq_Qeq in H
         | H : ~ @eq Qc _ _ |- _ => rewrite Qc_eq_Qeq in H
         | |- @eq Qc _ _ => apply Qc_eq_Qeq
         | |- ~ @eq Qc _ _ => rewrite Qc_eq_Qeq
         end;
  qc_unfold; lra.

Lemma Qcmult_pos_pos (x y : Qc) : 0 < x → 0 < y → 0 < x * y.
Proof.
  intros Hx Hy. rewrite <- (Qcmult_0_l y). by apply Qcmult_lt_compat_r.
Qed.

Lemma Qcpower_pos_strict (x : Qc) (n : nat) : 0 < x → 0 < x ^ n.
Proof.
  intros Hx. induction n as [|n IH]; cbn [Qcpower].
  - done.
  - by apply Qcmult_pos_pos.
Qed.

Lemma Qcinv_pos (x : Qc) : 0 < x → 0 < / x.
Proof.
  intros Hx. destruct (Qclt_le_dec 0 (/ x)) as [|Hle]; [done|].
  exfalso. assert (H1 : x * / x = 1) by (apply Qcmult_inv_r; intros ->; by apply (Qclt_not_eq 0 0)).
  assert (H2 : / x * x ≤ 0 * x) by (apply Qcmult_le_compat_r; [done | by apply Qclt_le_weak]).
  rewrite Qcmult_0_l, Qcmult_comm, H1 in H2. by apply (Qcle_not_lt _ _ H2).
Qed.

Lemma Qcdiv_le_mono (a b d : Qc) : 0 < d → a ≤ b → a / d ≤ b / d.
Proof.
  intros Hd Hab. unfold Qcdiv. apply Qcmult_le_compat_r; [done|].
  apply Qclt_le_weak. by apply Qcinv_pos.
Qed.

Lemma abs_lt (v tol : Qc) : abs v < tol ↔ - tol < v ∧ v < tol.
Proof.
  unfold abs. destruct (decide (v < 0)) as [Hv|Hv].
  - split; [intros H; split|intros [H1 H2]]; qc_lra.
  - apply Qcnot_lt_le in Hv. split; [intros H; split|intros [H1 H2]]; qc_lra.
Qed.

Lemma mid_between (lo hi : Qc) :
  lo < hi → lo < (lo + hi) / num 2 ∧ (lo + hi) / num 2 < hi.
Proof. intros H. split; qc_lra. Qed.

(** ** The discounting loop *)

Lemma range_1_succ (n : Z) : range 1 (n + 1) = List.map Z.of_nat (seq 1 (Z.to_nat n)).
Proof.
  unfold range. replace (n + 1 - 1)%Z with n by lia.
  rewrite <- seq_shift, List.map_map. apply List.map_ext. intros i. lia.
Qed.

Lemma abs_nonneg (x : Qc) : 0 ≤ x → abs x = x.
Proof.
  intros Hx. unfold abs. destruct (decide (x < 0)) as [Hneg|_]; [|done].
  exfalso. by apply (Qcle_not_lt _ _ Hx).
Qed.

Lemma float_underflow_lt_1 : float_underflow < 1.
Proof. by vm_compute. Qed.

Lemma float_underflow_pos : 0 < float_underflow.
Proof. by vm_compute. Qed.

Lemma in_float_range_nonzero (p : Qc) : in_float_range p → p ≠ 0.
Proof.
  intros [Hlo _] ->. rewrite abs_nonneg in Hlo by apply Qcle_refl.
  apply (Qclt_not_le _ _ Hlo). apply Qclt_le_weak, float_underflow_pos.
Qed.

Lemma float_power_ok (p : Qc) : in_float_range p → float_power p = Ok p.
Proof.
  intros [Hlo Hhi]. unfold float_power.
  destruct (decide (float_overflow ≤ abs p)) as [H|_].
  { exfalso. by apply (Qcle_not_lt _ _ H). }
  destruct (decide (abs p ≤ float_underflow)) as [H|_]; [|done].
  exfalso. by apply (Qcle_not_lt _ _ H).
Qed.

Lemma float_power_inv (p q : Qc) : float_power p = Ok q → q ≠ 0 → q = p.
Proof.
  unfold float_power. destruct (decide _); [done|]. destruct (decide _).
  - by intros [= <-].
  - by intros [= <-].
Qed.

Lemma pow_of_nat (x : Qc) (y : nat) :
  in_float_range (x ^ y) → pow x (Z.of_nat y) = Ok (x ^ y).
Proof.
  intros Hr. unfold pow. destruct (decide (0 ≤ Z.of_nat y)%Z); [|lia].
  rewrite Nat2Z.id. by apply float_power_ok.
Qed.

Lemma pow_of_nat_inv (x q : Qc) (y : nat) :
  pow x (Z.of_nat y) = Ok q → q ≠ 0 → q = x ^ y.
Proof.
  unfold pow. destruct (decide (0 ≤ Z.of_nat y)%Z); [|lia].
  rewrite Nat2Z.id. apply float_power_inv.
Qed.

(** The range at work: [(1 + 1e13) ** 24] is beyond the floats, [0.5 ** 1075]
    is 0.0 and [0.5 ** 1074] is not, [0.0 ** 1] is 0.0. *)
Lemma pow_range_examples :
  pow (1 + num 10000000000000) 24 = Raise OverflowError
  ∧ pow (frac 1 2) 1075 = Ok 0
  ∧ pow (frac 1 2) 1074 = Ok (frac 1 2 ^ 1074)
  ∧ pow 0 1 = Ok 0.
Proof.
  split_and!.
  - by vm_compute.
  - vm_compute. f_equal; by apply Qc_is_canon.
  - apply (pow_of_nat _ 1074). apply (bool_decide_unpack _). by vm_compute.
  - vm_compute. f_equal; by apply Qc_is_canon.
Qed.

Lemma truediv_ok (x y : Qc) : y ≠ 0 → truediv x y = Ok (x / y).
Proof. intros Hy. unfold truediv. by destruct (decide (y = 0)). Qed.

Lemma truediv_zero (x : Qc) : truediv x 0 = Raise ZeroDivisionError.
Proof. done. Qed.

Lemma truediv_inv (x y q : Qc) : truediv x y = Ok q → y ≠ 0 ∧ q = x / y.
Proof. unfold truediv. destruct (decide (y = 0)); [done|]. by intros [= <-]. Qed.

Lemma bind_Ok {A B} (r : result A) (k : A → result B) (b : B) :
  r ≫= k = Ok b → ∃ a, r = Ok a ∧ k a = Ok b.
Proof. destruct r as [a|e]; [by exists a | done]. Qed.

Lemma bind_Ok_l {A B} (a : A) (k : A → result B) : Ok a ≫= k = k a.
Proof. done. Qed.

(** Where every power is a float other than 0.0 the loop returns the exact
    sum. *)
Lemma discount_loop_ok (cash rate : Qc) (years : list nat) (acc : Qc) :
  Forall (fun year => in_float_range ((1 + rate) ^ year)) years →
  discount_loop cash rate (List.map Z.of_nat years) acc = Ok (discounted cash rate years acc).
Proof.
  intros Hr. revert acc.
  induction Hr as [|y ys Hy _ IH]; intros acc; cbn [List.map discount_loop].
  - done.
  - rewrite pow_of_nat by exact Hy. rewrite bind_Ok_l.
    rewrite truediv_ok by (by apply in_float_range_nonzero). rewrite bind_Ok_l.
    apply IH.
Qed.

(** Whatever the loop returns is the exact sum. *)
Lemma discount_loop_inv (cash rate : Qc) (years : list nat) (acc v : Qc) :
  discount_loop cash rate (List.map Z.of_nat years) acc = Ok v →
  v = discounted cash rate years acc.
Proof.
  revert acc. induction years as [|y ys IH]; intros acc; cbn [List.map discount_loop].
  - by intros [= <-].
  - intros H. apply bind_Ok in H as (factor & Hfactor & H).
    apply bind_Ok in H as (term & Hterm & H).
    apply truediv_inv in Hterm as (Hne & ->).
    apply pow_of_nat_inv in Hfactor as ->; [|exact Hne].
    by apply IH in H.
Qed.

(** The loop over a horizon. *)
Lemma discount_loop_defined (cash rate : Qc) (n : Z) (acc : Qc) :
  npv_defined n rate →
  discount_loop cash rate (range 1 (n + 1)) acc
  = Ok (discounted cash rate (seq 1 (Z.to_nat n)) acc).
Proof. intros [Hr _]. rewrite range_1_succ. by apply discount_loop_ok. Qed.

Lemma discount_loop_horizon_inv (cash rate : Qc) (n : Z) (acc v : Qc) :
  discount_loop cash rate (range 1 (n + 1)) acc = Ok v →
  v = discounted cash rate (seq 1 (Z.to_nat n)) acc.
Proof. rewrite range_1_succ. apply discount_loop_inv. Qed.

Lemma discounted_app (cash rate : Qc) (ys zs : list nat) (acc : Qc) :
  discounted cash rate (ys ++ zs) acc = discounted cash rate zs (discounted cash rate ys acc).
Proof. apply fold_left_app. Qed.

Lemma discounted_as_sum (cash rate : Qc) (horizon : nat) (acc : Qc) :
  discounted cash rate (seq 1 horizon) acc = acc + discounted_sum cash rate horizon.
Proof.
  induction horizon as [|t IH].
  - cbn. ring.
  - rewrite seq_S, discounted_app, IH. cbn [discounted fold_left discounted_sum Nat.add]. ring.
Qed.

Lemma discounted_mono (c1 c2 rate : Qc) (years : list nat) (a1 a2 : Qc) :
  0 < 1 + rate → c1 ≤ c2 → a1 ≤ a2 →
  discounted c1 rate years a1 ≤ discounted c2 rate years a2.
Proof.
  intros Hr Hc. revert a1 a2. induction years as [|y ys IH]; intros a1 a2 Ha; cbn.
  - done.
  - apply IH. apply Qcplus_le_compat; [done|].
    apply Qcdiv_le_mono; [|done]. by apply Qcpower_pos_strict.
Qed.

Lemma npv_at_mono (c1 c2 k1 k2 : Qc) (life : Z) (rate : Qc) :
  0 < 1 + rate → c1 ≤ c2 → k2 ≤ k1 →
  npv_at c1 k1 life rate ≤ npv_at c2 k2 life rate.
Proof.
  intros Hr Hc Hk. apply discounted_mono; [done..|]. by apply Qcopp_le_compat.
Qed.

Lemma truediv_pos (x y : Qc) : 0 < y → truediv x y = Ok (x / y).
Proof. intros Hy. apply truediv_ok. intros ->. by apply (Qclt_not_eq 0 0). Qed.

(** ** The bisection *)

Lemma Qcpower_ge_1 (a : Qc) (n : nat) : 1 ≤ a → 1 ≤ a ^ n.
Proof.
  intros Ha. induction n as [|n IH]; cbn [Qcpower]; [apply Qcle_refl|].
  apply Qcle_trans with (1 * a ^ n); [by rewrite Qcmult_1_l|].
  apply Qcmult_le_compat_r; [exact Ha|]. by apply Qcle_trans with 1.
Qed.

Lemma Qcpower_le_base (a b : Qc) (n : nat) : 0 ≤ a → a ≤ b → a ^ n ≤ b ^ n.
Proof.
  intros Ha Hab. induction n as [|n IH]; cbn [Qcpower]; [apply Qcle_refl|].
  apply Qcle_trans with (b * a ^ n).
  - apply Qcmult_le_compat_r; [exact Hab | by apply Qcpower_pos].
  - rewrite (Qcmult_comm b (a ^ n)), (Qcmult_comm b (b ^ n)).
    apply Qcmult_le_compat_r; [exact IH | by apply Qcle_trans with a].
Qed.

Lemma Qcpower_le_exp (a : Qc) (n m : nat) : 1 ≤ a → (n ≤ m)%nat → a ^ n ≤ a ^ m.
Proof.
  intros Ha. induction 1 as [|m _ IH]; [apply Qcle_refl|].
  apply Qcle_trans with (a ^ m); [exact IH|]. cbn [Qcpower].
  apply Qcle_trans with (1 * a ^ m); [rewrite Qcmult_1_l; apply Qcle_refl|].
  apply Qcmult_le_compat_r; [exact Ha|]. apply Qcpower_pos. by apply Qcle_trans with 1.
Qed.

(** Every power the bisection takes at a trial rate within [0, 0.5] is a
    float other than 0.0 when [1.5 ** horizon] is a float. *)
Lemma trial_in_range (life : nat) (t : Qc) :
  frac 3 2 ^ life < float_overflow → 0 ≤ t → t ≤ frac 1 2 →
  Forall (fun year => in_float_range ((1 + t) ^ year)) (seq 1 life).
Proof.
  intros Hmax Hlo Hhi. apply Forall_forall. intros y [_ Hy]%elem_of_seq.
  assert (H1 : 1 ≤ 1 + t) by (clear -Hlo; qc_lra).
  assert (Hp : 1 ≤ (1 + t) ^ y) by (by apply Qcpower_ge_1).
  unfold in_float_range. rewrite abs_nonneg by (by apply Qcle_trans with 1). split.
  - apply Qclt_le_trans with 1; [apply float_underflow_lt_1 | exact Hp].
  - apply Qcle_lt_trans with (frac 3 2 ^ life); [|exact Hmax].
    apply Qcle_trans with (frac 3 2 ^ y).
    + apply Qcpower_le_base; [by apply Qcle_trans with 1 | clear -Hhi; qc_lra].
    + apply Qcpower_le_exp; [by vm_compute | lia].
Qed.

Lemma trial_loop_ok (cash capex : Qc) (life : Z) (t : Qc) :
  frac 3 2 ^ Z.to_nat life < float_overflow → 0 ≤ t → t ≤ frac 1 2 →
  discount_loop cash t (range 1 (life + 1)) (- capex) = Ok (npv_at cash capex life t).
Proof.
  intros Hmax Hlo Hhi. rewrite range_1_succ. apply discount_loop_ok.
  by apply trial_in_range.
Qed.

(** One iteration, where the residual is computed. *)
Lemma irr_loop_step (cash capex : Qc) (life : Z) (k : nat) (lo hi : Qc) (t0 : option Qc) :
  let t := (lo + hi) / num 2 in
  discount_loop cash t (range 1 (life + 1)) (- capex) = Ok (npv_at cash capex life t) →
  irr_loop cash capex life (S k) lo hi t0 =
    if decide (abs (npv_at cash capex life t) < tolerance) then Ok (Some t)
    else if decide (0 < npv_at cash capex life t)
         then irr_loop cash capex life k t hi (Some t)
         else irr_loop cash capex life k lo t (Some t).
Proof. intros t Ht. cbn [irr_loop]. fold t. by rewrite Ht. Qed.

(** One iteration of a run that returns. *)
Lemma irr_loop_step_inv (cash capex : Qc) (life : Z) (k : nat) (lo hi : Qc)
    (t0 o : option Qc) :
  let t := (lo + hi) / num 2 in
  irr_loop cash capex life (S k) lo hi t0 = Ok o →
  (if decide (abs (npv_at cash capex life t) < tolerance) then Ok (Some t)
   else if decide (0 < npv_at cash capex life t)
        then irr_loop cash capex life k t hi (Some t)
        else irr_loop cash capex life k lo t (Some t)) = Ok o.
Proof.
  intros t H. cbn [irr_loop] in H. fold t in H.
  apply bind_Ok in H as (v & Hv & H). by apply discount_loop_horizon_inv in Hv as ->.
Qed.

(** A run that returns, returns a trial rate of its bracket. *)
Lemma irr_loop_bracket_inv (cash capex : Qc) (life : Z) (n : nat) (lo hi : Qc)
    (t0 o : option Qc) :
  lo < hi → in_bracket lo hi t0 ∨ n ≠ 0%nat →
  irr_loop cash capex life n lo hi t0 = Ok o →
  ∃ r, o = Some r ∧ lo ≤ r ∧ r ≤ hi.
Proof.
  revert lo hi t0. induction n as [|k IH]; intros lo hi t0 Hlt Hst H.
  - destruct Hst as [Hst|?]; [|done]. destruct t0 as [r|]; [|done].
    cbn in H. injection H as <-. by exists r.
  - apply irr_loop_step_inv in H.
    destruct (mid_between lo hi Hlt) as [H1 H2].
    set (t := (lo + hi) / num 2) in *.
    destruct (decide _) as [_|_].
    { injection H as <-. exists t. split_and!; [done| |]; by apply Qclt_le_weak. }
    destruct (decide _) as [_|_].
    + destruct (IH t hi (Some t) H2) with (2 := H) as (r & -> & Hr1 & Hr2).
      { left. split; [apply Qcle_refl | by apply Qclt_le_weak]. }
      exists r. split_and!; [done | | done].
      apply Qcle_trans with t; [by apply Qclt_le_weak | done].
    + destruct (IH lo t (Some t) H1) with (2 := H) as (r & -> & Hr1 & Hr2).
      { left. split; [by apply Qclt_le_weak | apply Qcle_refl]. }
      exists r. split_and!; [done | done |].
      apply Qcle_trans with t; [done | by apply Qclt_le_weak].
Qed.

(** Within [0, 0.5] the run returns when [1.5 ** horizon] is a float. *)
Lemma irr_loop_returns (cash capex : Qc) (life : Z) (n : nat) (lo hi : Qc) (t0 : option Qc) :
  frac 3 2 ^ Z.to_nat life < float_overflow →
  0 ≤ lo → lo < hi → hi ≤ frac 1 2 →
  ∃ o, irr_loop cash capex life n lo hi t0 = Ok o.
Proof.
  intros Hmax. revert lo hi t0. induction n as [|k IH]; intros lo hi t0 Hlo Hlt Hhi.
  - cbn. eauto.
  - destruct (mid_between lo hi Hlt) as [H1 H2].
    rewrite irr_loop_step.
    + set (t := (lo + hi) / num 2) in *.
      destruct (decide _) as [_|_]; [eauto|].
      destruct (decide _) as [_|_].
      * apply IH; [|done..]. apply Qclt_le_weak. by apply Qcle_lt_trans with lo.
      * apply IH; [done..|]. apply Qclt_le_weak. by apply Qlt_le_trans with hi.
    + apply trial_loop_ok; [done| |].
      * apply Qclt_le_weak. by apply Qcle_lt_trans with lo.
      * apply Qclt_le_weak. by apply Qclt_le_trans with hi.
Qed.

Lemma irr_loop_bracket (cash capex : Qc) (life : Z) (n : nat) (lo hi : Qc) (t0 : option Qc) :
  frac 3 2 ^ Z.to_nat life < float_overflow →
  0 ≤ lo → lo < hi → hi ≤ frac 1 2 → in_bracket lo hi t0 ∨ n ≠ 0%nat →
  ∃ r, irr_loop cash capex life n lo hi t0 = Ok (Some r) ∧ lo ≤ r ∧ r ≤ hi.
Proof.
  intros Hmax Hlo Hlt Hhi Hst.
  destruct (irr_loop_returns cash capex life n lo hi t0 Hmax Hlo Hlt Hhi) as (o & Ho).
  destruct (irr_loop_bracket_inv _ _ _ _ _ _ _ _ Hlt Hst Ho) as (r & -> & Hr).
  by exists r.
Qed.

(** Two runs that return, the second on a larger cash flow and a smaller
    capex: they agree until the run with the larger residual turns to the
    upper half, or stops, first. *)
Lemma irr_loop_mono (c1 c2 k1 k2 : Qc) (life : Z) (n : nat) (lo hi : Qc)
    (t0 o1 o2 : option Qc) :
  0 ≤ lo → lo < hi → c1 ≤ c2 → k2 ≤ k1 →
  in_bracket lo hi t0 ∨ n ≠ 0%nat →
  irr_loop c1 k1 life n lo hi t0 = Ok o1 →
  irr_loop c2 k2 life n lo hi t0 = Ok o2 →
  ∃ r1 r2, o1 = Some r1 ∧ o2 = Some r2 ∧ r1 ≤ r2.
Proof.
  intros Hlo Hlt Hc Hk. revert lo hi t0 Hlo Hlt.
  induction n as [|k IH]; intros lo hi t0 Hlo Hlt Hst E1 E2.
  - destruct Hst as [Hst|?]; [|done]. destruct t0 as [r|]; [|done].
    cbn in E1, E2. injection E1 as <-. injection E2 as <-.
    exists r, r. split_and!; [done..|apply Qcle_refl].
  - apply irr_loop_step_inv in E1. apply irr_loop_step_inv in E2.
    destruct (mid_between lo hi Hlt) as [H1 H2].
    set (t := (lo + hi) / num 2) in *.
    assert (Hlo' : 0 ≤ t) by (apply Qclt_le_weak; by apply Qcle_lt_trans with lo).
    assert (Hup : in_bracket t hi (Some t) ∨ k ≠ 0%nat).
    { left. split; [apply Qcle_refl | by apply Qclt_le_weak]. }
    assert (Hdown : in_bracket lo t (Some t) ∨ k ≠ 0%nat).
    { left. split; [by apply Qclt_le_weak | apply Qcle_refl]. }
    assert (Hv : npv_at c1 k1 life t ≤ npv_at c2 k2 life t).
    { apply npv_at_mono; [|done..]. clear -Hlo'. qc_lra. }
    revert Hv E1 E2. generalize (npv_at c1 k1 life t) (npv_at c2 k2 life t).
    intros v1 v2 Hv E1 E2.
    destruct (decide (abs v1 < tolerance)) as [Ha1|Ha1];
      [|destruct (decide (0 < v1)) as [Hb1|Hb1]];
      (destruct (decide (abs v2 < tolerance)) as [Ha2|Ha2];
       [|destruct (decide (0 < v2)) as [Hb2|Hb2]]);
      rewrite abs_lt in Ha1, Ha2.
    + injection E1 as <-. injection E2 as <-.
      exists t, t. split_and!; [done..|apply Qcle_refl].
    + injection E1 as <-.
      destruct (irr_loop_bracket_inv _ _ _ _ _ _ _ _ H2 Hup E2) as (r2 & -> & Hge & _).
      by exists t, r2.
    + exfalso. clear IH E1 E2. qc_lra.
    + exfalso. clear IH E1 E2. qc_lra.
    + by apply (IH t hi (Some t)).
    + exfalso. clear IH E1 E2. qc_lra.
    + injection E2 as <-.
      destruct (irr_loop_bracket_inv _ _ _ _ _ _ _ _ H1 Hdown E1) as (r1 & -> & _ & Hle).
      by exists r1, t.
    + destruct (irr_loop_bracket_inv _ _ _ _ _ _ _ _ H1 Hdown E1) as (r1 & -> & _ & Hle).
      destruct (irr_loop_bracket_inv _ _ _ _ _ _ _ _ H2 Hup E2) as (r2 & -> & Hge & _).
      exists r1, r2. split_and!; [done..|]. by apply Qcle_trans with t.
    + by apply (IH lo t (Some t)).
Qed.

(** ** The financial metrics *)

Lemma irr_loop_initial (cash capex : Qc) (life : Z) :
  frac 3 2 ^ Z.to_nat life < float_overflow →
  ∃ r, irr_bracketed cash capex life r.
Proof.
  intros Hmax. apply irr_loop_bracket; [exact Hmax | done | done | apply Qcle_refl | by right].
Qed.

Lemma calculate_financial_metrics_returns
    (annual_revenue annual_opex net_capex : Qc) (project_lifetime : Z) (discount_rate : Qc) :
  npv_defined project_lifetime discount_rate →
  ∃ r, irr_bracketed (annual_revenue - annual_opex) net_capex project_lifetime r ∧
    calculate_financial_metrics annual_revenue annual_opex net_capex
                                project_lifetime discount_rate
    = Ok {| annual_cash_flow := annual_revenue - annual_opex;
            payback_years :=
              if decide (0 < annual_revenue - annual_opex)
              then Finite (net_capex / (annual_revenue - annual_opex))
              else Infinity;
            npv := npv_at (annual_revenue - annual_opex) net_capex
                          project_lifetime discount_rate;
            irr := if decide (0 < annual_revenue - annual_opex) then r else num 0;
            roi :=
              if decide (0 < net_capex)
              then (annual_revenue * num project_lifetime
                    - annual_opex * num project_lifetime - net_capex) / net_capex * num 100
              else num 0;
            lcoe_note := "LCOE requires annual generation data" |}.
Proof.
  intros Hd.
  destruct (irr_loop_initial (annual_revenue - annual_opex) net_capex project_lifetime
              (proj2 Hd)) as (r & Hr).
  exists r. split; [done|]. destruct Hr as (Hr & _).
  unfold calculate_financial_metrics.
  rewrite (discount_loop_defined _ _ _ _ Hd), Hr.
  destruct (decide (0 < annual_revenue - annual_opex)) as [Hcf|Hcf];
    destruct (decide (0 < net_capex)) as [Hcx|Hcx];
    rewrite ?truediv_pos by done;
    reflexivity.
Qed.

(** Whatever the call returns has the fields below. *)
Lemma metrics_inv rev opex capex life dr m :
  calculate_financial_metrics rev opex capex life dr = Ok m →
  ∃ r, irr_bracketed (rev - opex) capex life r ∧
    m = {| annual_cash_flow := rev - opex;
           payback_years :=
             if decide (0 < rev - opex) then Finite (capex / (rev - opex)) else Infinity;
           npv := npv_at (rev - opex) capex life dr;
           irr := if decide (0 < rev - opex) then r else num 0;
           roi :=
             if decide (0 < capex)
             then (rev * num life - opex * num life - capex) / capex * num 100
             else num 0;
           lcoe_note := "LCOE requires annual generation data" |}.
Proof.
  intros H. unfold calculate_financial_metrics in H.
  apply bind_Ok in H as (payback & Hpayback & H).
  apply bind_Ok in H as (v & Hv & H). apply discount_loop_horizon_inv in Hv as ->.
  apply bind_Ok in H as (o & Ho & H).
  destruct (irr_loop_bracket_inv _ _ _ _ _ _ _ _ (eq_refl : num 0 < frac 1 2)
              (or_intror (ltac:(discriminate) : 100%nat ≠ 0%nat)) Ho) as (r & -> & Hlo & Hhi).
  exists r. split; [by split|].
  apply bind_Ok in H as (i & Hi & H). apply bind_Ok in H as (ro & Hro & H).
  injection H as <-.
  destruct (decide (0 < rev - opex)) as [Hcf|Hcf];
    destruct (decide (0 < capex)) as [Hcx|Hcx];
    rewrite ?(truediv_pos capex) in Hpayback by done;
    rewrite ?truediv_pos in Hro by done;
    cbn in Hpayback, Hi, Hro;
    injection Hpayback as <-; injection Hi as <-; injection Hro as <-;
    reflexivity.
Qed.

(** ** The store *)

Lemma deref_Ok (s : gmap positive (gmap string value)) l d :
  deref s l = Ok d ↔ s !! l = Some d.
Proof. unfold deref. destruct (s !! l); naive_solver. Qed.

Lemma fresh_lookup (s : gmap positive (gmap string value)) :
  s !! fresh (dom s) = None.
Proof. apply not_elem_of_dom, is_fresh. Qed.

Lemma fresh_ne (s : gmap positive (gmap string value)) l d :
  s !! l = Some d → l ≠ fresh (dom s).
Proof. intros Hl ->. by rewrite fresh_lookup in Hl. Qed.

Lemma copy_Ok (s : gmap positive (gmap string value)) l d :
  s !! l = Some d → copy s l = Ok (fresh (dom s), <[fresh (dom s) := d]> s).
Proof. intros Hl. unfold copy. by rewrite (proj2 (deref_Ok _ _ _) Hl). Qed.

Lemma copy_inv (s s' : gmap positive (gmap string value)) l l' :
  copy s l = Ok (l', s') →
  ∃ d, s !! l = Some d ∧ l' = fresh (dom s) ∧ s' = <[l' := d]> s.
Proof.
  unfold copy. intros H. apply bind_Ok in H as (d & Hd & H).
  apply deref_Ok in Hd. injection H as <- <-. by exists d.
Qed.

Lemma copy_frame (s s' : gmap positive (gmap string value)) l l' :
  copy s l = Ok (l', s') → s !! l' = None ∧ s ⊆ s' ∧ s' !! l' = s !! l.
Proof.
  intros H. apply copy_inv in H as (d & Hd & -> & ->).
  split_and!.
  - apply fresh_lookup.
  - apply insert_subseteq, fresh_lookup.
  - by rewrite lookup_insert_eq.
Qed.

Lemma setitem_Ok (s : gmap positive (gmap string value)) l d key v :
  s !! l = Some d → setitem s l key v = Ok (<[l := <[key := v]> d]> s).
Proof. intros Hl. unfold setitem. by rewrite (proj2 (deref_Ok _ _ _) Hl). Qed.

Lemma setitem_inv (s s' : gmap positive (gmap string value)) l key v :
  setitem s l key v = Ok s' →
  ∃ d, s !! l = Some d ∧ s' = <[l := <[key := v]> d]> s.
Proof.
  unfold setitem. intros H. apply bind_Ok in H as (d & Hd & H).
  apply deref_Ok in Hd. injection H as <-. by exists d.
Qed.

Lemma getitem_Ok (s : gmap positive (gmap string value)) l d key v :
  s !! l = Some d → d !! key = Some v → getitem s l key = Ok v.
Proof.
  intros Hl Hk. unfold getitem. rewrite (proj2 (deref_Ok _ _ _) Hl). cbn. by rewrite Hk.
Qed.

Lemma getitem_inv (s : gmap positive (gmap string value)) l key v :
  getitem s l key = Ok v → ∃ d, s !! l = Some d ∧ d !! key = Some v.
Proof.
  unfold getitem. intros H. apply bind_Ok in H as (d & Hd & H).
  apply deref_Ok in Hd. exists d. split; [done|].
  destruct (d !! key); by simplify_eq.
Qed.

Lemma getitem_insert_fresh (s : gmap positive (gmap string value)) l d key v :
  getitem s l key = Ok v → getitem (<[fresh (dom s) := d]> s) l key = Ok v.
Proof.
  intros H. apply getitem_inv in H as (d' & Hl & Hk).
  apply getitem_Ok with d'; [|done].
  rewrite lookup_insert_ne; [done|]. apply not_eq_sym. by eapply fresh_ne.
Qed.

(** ** What the configuration functions compute *)

Section with_view.
Context (s : gmap positive (gmap string value)) (r : positive)
        (d : gmap string value) (t o c : Qc).
Context (Hview : config_view s r d t o c).

Local Abbreviation l1 := (fresh (dom s)).
Local Abbreviation s1 := (<[fresh (dom s) := d]> s).
Local Abbreviation l2 := (fresh (dom (<[fresh (dom s) := d]> s))).

Lemma get_optimized_revenue_streams_view :
  get_optimized_revenue_streams s = Ok (l1, s1).
Proof.
  unfold get_optimized_revenue_streams.
  rewrite (view_revenue_streams _ _ _ _ _ _ Hview), bind_Ok_l.
  apply copy_Ok, Hview.
Qed.

Lemma calculate_current_metrics_view :
  calculate_current_metrics s =
    m ← calculate_financial_metrics t o c 25 (frac 8 100);
    Ok ({| revenue := l1; capex := Num c; opex := Num o; metrics_of := m |}, s1).
Proof.
  unfold calculate_current_metrics.
  rewrite get_optimized_revenue_streams_view, bind_Ok_l. cbv beta iota.
  unfold get_optimized_capex.
  rewrite (getitem_insert_fresh _ _ _ _ _ (view_net_capex _ _ _ _ _ _ Hview)), bind_Ok_l.
  rewrite (getitem_insert_fresh _ _ _ _ _ (view_annual_opex _ _ _ _ _ _ Hview)), bind_Ok_l.
  rewrite (getitem_Ok s1 l1 d "total" (Num t)); cycle 1.
  { apply lookup_insert_eq. } { apply Hview. }
  done.
Qed.

Lemma calculate_scenario_body_view (revenue_adjustment capex_adjustment : Qc) :
  calculate_scenario_body revenue_adjustment capex_adjustment s =
    _ ← calculate_financial_metrics t o c 25 (frac 8 100);
    m ← calculate_financial_metrics (t + revenue_adjustment) o (c + capex_adjustment)
          25 (frac 8 100);
    Ok ({| local_rev := l2; local_capex := c + capex_adjustment;
           local_annual_opex := Num o; local_metrics := m |},
        <[l2 := <["total" := Num (t + revenue_adjustment)]> d]> s1).
Proof.
  unfold calculate_scenario_body. rewrite calculate_current_metrics_view.
  destruct (calculate_financial_metrics t o c 25 (frac 8 100)) as [m0|e]; [|done].
  rewrite !bind_Ok_l. cbv beta iota. cbn [revenue capex opex].
  rewrite (copy_Ok s1 l1 d) by apply lookup_insert_eq.
  rewrite bind_Ok_l. cbv beta iota.
  set (s2 := <[l2 := d]> s1).
  assert (H2 : s2 !! l2 = Some d) by apply lookup_insert_eq.
  cbn [as_num]. rewrite bind_Ok_l.
  rewrite (getitem_Ok s2 l2 d "total" (Num t) H2) by apply Hview.
  rewrite !bind_Ok_l. cbn [as_num]. rewrite bind_Ok_l.
  rewrite (setitem_Ok s2 l2 d) by done. rewrite bind_Ok_l.
  rewrite (getitem_Ok _ l2 (<["total" := Num (t + revenue_adjustment)]> d) "total"
             (Num (t + revenue_adjustment)));
    [|apply lookup_insert_eq..].
  rewrite !bind_Ok_l. cbn [as_num]. rewrite !bind_Ok_l.
  subst s2. by rewrite insert_insert_eq.
Qed.
End with_view.

Lemma default_rate_defined : npv_defined 25 (frac 8 100).
Proof. apply (bool_decide_unpack _). by vm_compute. Qed.

Lemma module_store_view :
  config_view module_store revenue_streams_loc revenue_streams
              (num 477000) (num 43000) (num 4710145).
Proof. split; reflexivity. Qed.

Lemma named_sum_insert_total (d : gmap string value) v :
  named_sum (<["total" := v]> d) = named_sum d.
Proof.
  unfold named_sum, revenue_categories, entry. cbn [foldr].
  by rewrite !lookup_insert_ne by done.
Qed.

Lemma named_sum_revenue_streams : named_sum revenue_streams = Some (num 477000).
Proof. vm_compute. f_equal. by apply Qc_is_canon. Qed.

Lemma mapM_weaken {A B} (f g : A → option B) (l : list A) (r : list B) :
  (∀ x y, f x = Some y → g x = Some y) →
  mapM f l = Some r → mapM g l = Some r.
Proof.
  intros Hfg. revert r. induction l as [|x l IH]; intros r; [done|].
  cbn. destruct (f x) as [y|] eqn:Hx; [|done]. rewrite (Hfg _ _ Hx). cbn.
  destruct (mapM f l) as [r'|]; [|done]. by rewrite (IH r' eq_refl).
Qed.

Lemma snapshot_weaken (depth : nat) (s s' : gmap positive (gmap string value))
    (v : value) (o : pyobj) :
  s ⊆ s' → snapshot depth s v = Some o → snapshot depth s' v = Some o.
Proof.
  intros Hsub. revert v o. induction depth as [|n IH]; intros [q|l] o; cbn; try done.
  destruct (s !! l) as [d|] eqn:Hl; [|done].
  rewrite (lookup_weaken _ _ _ _ Hl Hsub). cbn.
  destruct (mapM _ (map_to_list d)) as [r|] eqn:Hr; [|done].
  intros [= <-].
  erewrite mapM_weaken; [done| |exact Hr].
  intros [k w] [k' o']. cbn.
  destruct (snapshot n s w) as [ow|] eqn:Hw; [|done].
  by rewrite (IH _ _ Hw).
Qed.

(** ** Frames *)

Lemma get_optimized_revenue_streams_frame (s s' : gmap positive (gmap string value)) l :
  get_optimized_revenue_streams s = Ok (l, s') →
  s !! l = None ∧ s ⊆ s' ∧
  ∃ r, getitem s OPTIMIZED_CONFIG "revenue_streams" = Ok (Ref r) ∧ s' !! l = s !! r.
Proof.
  unfold get_optimized_revenue_streams. intros H.
  apply bind_Ok in H as (r & Hr & H).
  apply bind_Ok in Hr as (v & Hv & Hr).
  destruct v as [q|r']; [done|]. injection Hr as ->.
  apply copy_frame in H as (? & ? & ?). split_and!; [done..|]. by exists r.
Qed.

Lemma get_optimized_site_config_frame (site_name : string)
    (s s' : gmap positive (gmap string value)) l :
  get_optimized_site_config site_name s = Ok (l, s') →
  s !! l = None ∧ s ⊆ s' ∧
  ∃ sites site, getitem s OPTIMIZED_CONFIG "sites" = Ok (Ref sites) ∧
                getitem s sites site_name = Ok (Ref site) ∧ s' !! l = s !! site.
Proof.
  unfold get_optimized_site_config. intros H.
  apply bind_Ok in H as (sites & Hsites & H).
  apply bind_Ok in Hsites as (v & Hv & Hsites).
  destruct v as [q|sites']; [done|]. injection Hsites as ->.
  apply bind_Ok in H as (known & Hknown & H).
  destruct known; [|done]. cbn [negb] in H.
  apply bind_Ok in H as (site & Hsite & H).
  apply bind_Ok in Hsite as (v & Hv' & Hsite).
  destruct v as [q|site']; [done|]. injection Hsite as ->.
  apply copy_frame in H as (? & ? & ?). split_and!; [done..|]. by exists sites, site.
Qed.

Lemma calculate_current_metrics_frame (s s' : gmap positive (gmap string value))
    (data : current_metrics) :
  calculate_current_metrics s = Ok (data, s') →
  s !! revenue data = None ∧ s ⊆ s' ∧ is_Some (s' !! revenue data).
Proof.
  unfold calculate_current_metrics. intros H.
  apply bind_Ok in H as ([rev s1] & Hrev & H).
  apply get_optimized_revenue_streams_frame in Hrev as (Hfresh & Hsub & _).
  do 3 (apply bind_Ok in H as (? & ? & H)).
  apply getitem_inv in H2 as (d & Hd & _).
  do 4 (apply bind_Ok in H as (? & ? & H)).
  injection H as <- <-. cbn. by rewrite Hd.
Qed.

Lemma calculate_scenario_body_frame (revenue_adjustment capex_adjustment : Qc)
    (s s' : gmap positive (gmap string value)) (locals : scenario_locals) :
  calculate_scenario_body revenue_adjustment capex_adjustment s = Ok (locals, s') →
  s !! local_rev locals = None ∧ s ⊆ s'.
Proof.
  unfold calculate_scenario_body. intros H.
  apply bind_Ok in H as ([data s1] & Hdata & H).
  apply calculate_current_metrics_frame in Hdata as (_ & Hsub1 & _).
  apply bind_Ok in H as ([rev s2] & Hcopy & H).
  apply copy_inv in Hcopy as (d & Hd & -> & ->).
  apply bind_Ok in H as (? & _ & H).
  apply bind_Ok in H as (? & _ & H).
  apply bind_Ok in H as (s3 & Hset & H).
  apply setitem_inv in Hset as (d' & _ & ->).
  do 3 (apply bind_Ok in H as (? & _ & H)).
  injection H as <- <-. cbn [local_rev].
  rewrite insert_insert_eq.
  assert (Hfresh : s1 !! fresh (dom s1) = None) by apply fresh_lookup.
  split.
  - by eapply lookup_weaken_None.
  - etrans; [exact Hsub1|]. by apply insert_subseteq.
Qed.

Lemma calculate_scenario_frame (scenario_name : string)
    (revenue_adjustment capex_adjustment : Qc)
    (s s' : gmap positive (gmap string value)) (m : metrics) :
  calculate_scenario scenario_name revenue_adjustment capex_adjustment s = Ok (m, s') →
  s ⊆ s'.
Proof.
  unfold calculate_scenario. intros H.
  apply bind_Ok in H as ([locals s1] & Hbody & H). injection H as _ <-.
  by apply calculate_scenario_body_frame in Hbody as (_ & ?).
Qed.

Lemma setitem_fresh_frame (s s' s'' : gmap positive (gmap string value)) l key v :
  s !! l = None → s ⊆ s' → setitem s' l key v = Ok s'' → s ⊆ s''.
Proof.
  intros Hl Hsub Hset. apply setitem_inv in Hset as (d & _ & ->).
  etrans; [|apply insert_mono, Hsub]. by apply insert_subseteq.
Qed.

(** A run that returns after the bracket [irr_bracket_after] computes,
    returns a rate of that bracket. *)
Lemma irr_loop_after (cash capex : Qc) (life : Z) (n m : nat) (lo hi lo' hi' : Qc)
    (t0 o : option Qc) :
  lo < hi →
  irr_bracket_after cash capex life n lo hi = Some (lo', hi') →
  irr_loop cash capex life (n + S m) lo hi t0 = Ok o →
  ∃ r, o = Some r ∧ lo' ≤ r ∧ r ≤ hi'.
Proof.
  revert lo hi t0. induction n as [|k IH]; intros lo hi t0 Hlt Hb H.
  - injection Hb as <- <-. cbn [Nat.add] in H.
    eapply irr_loop_bracket_inv; [exact Hlt | | exact H]. by right.
  - cbn [irr_bracket_after] in Hb. cbn [Nat.add] in H. apply irr_loop_step_inv in H.
    destruct (mid_between lo hi Hlt) as [H1 H2].
    set (t := (lo + hi) / num 2) in *.
    destruct (decide _); [done|].
    destruct (decide _).
    + exact (IH t hi (Some t) H2 Hb H).
    + exact (IH lo t (Some t) H1 Hb H).
Qed.

Lemma num_0 : num 0 = 0.
Proof. by apply Qc_is_canon. Qed.

(** ** The claims *)

(** *** C1: IRR when the cash flow is not positive *)

(** C1.  For every annual revenue, annual opex, net capex, horizon and
    discount rate with an annual cash flow [annual_revenue - annual_opex] of
    at most 0: whatever [calculate_financial_metrics] returns has an ['irr'] of
    exactly 0, whatever the residual NPV was during the bisection.  (The call
    returns whenever every power its two loops take is a float other than
    0.0.) *)
Theorem irr_zero_when_cash_flow_nonpositive
    (annual_revenue annual_opex net_capex : Qc) (project_lifetime : Z) (discount_rate : Qc) :
  annual_revenue - annual_opex ≤ 0 →
  (npv_defined project_lifetime discount_rate →
   ∃ m, calculate_financial_metrics annual_revenue annual_opex net_capex
                                    project_lifetime discount_rate = Ok m)
  ∧ (∀ m, calculate_financial_metrics annual_revenue annual_opex net_capex
                                      project_lifetime discount_rate = Ok m →
          irr m = num 0).
Proof.
  intros Hcf. split.
  - intros Hd.
    destruct (calculate_financial_metrics_returns annual_revenue annual_opex net_capex
                project_lifetime discount_rate Hd) as (r & _ & E).
    eauto.
  - intros m H. apply metrics_inv in H as (r & _ & ->). cbn [irr].
    destruct (decide _) as [Hpos|_]; [|done].
    exfalso. by apply (Qcle_not_lt _ _ Hcf).
Qed.

(** The scenario of the claim: revenue 0, opex 10000, capex 100000, over the
    default 25 years at 8%. *)
Lemma irr_zero_when_cash_flow_nonpositive_witness :
  ∃ m, calculate_financial_metrics (num 0) (num 10000) (num 100000) 25 (frac 8 100) = Ok m
       ∧ irr m = num 0.
Proof.
  destruct (irr_zero_when_cash_flow_nonpositive (num 0) (num 10000) (num 100000) 25
              (frac 8 100)) as [Hreturns Hirr].
  - vm_compute. discriminate.
  - destruct Hreturns as (m & E).
    + apply (bool_decide_unpack _). vm_compute. reflexivity.
    + exists m. split; [exact E | exact (Hirr m E)].
Defined.

(** *** C2: the IRR stays inside the bisection bounds *)

(** C2.  For every input, whatever [calculate_financial_metrics] returns has
    [0 <= irr <= 0.5]: the value is either the constant 0 or a midpoint tested
    by the bisection, which never leaves the bracket it started from.  (The
    call returns whenever every power its two loops take is a float other than
    0.0.) *)
Theorem irr_within_bisection_bounds
    (annual_revenue annual_opex net_capex : Qc) (project_lifetime : Z) (discount_rate : Qc) :
  (npv_defined project_lifetime discount_rate →
   ∃ m, calculate_financial_metrics annual_revenue annual_opex net_capex
                                    project_lifetime discount_rate = Ok m)
  ∧ (∀ m, calculate_financial_metrics annual_revenue annual_opex net_capex
                                      project_lifetime discount_rate = Ok m →
          num 0 ≤ irr m ∧ irr m ≤ frac 1 2).
Proof.
  split.
  - intros Hd.
    destruct (calculate_financial_metrics_returns annual_revenue annual_opex net_capex
                project_lifetime discount_rate Hd) as (r & _ & E).
    eauto.
  - intros m H. apply metrics_inv in H as (r & (_ & Hlo & Hhi) & ->). cbn [irr].
    destruct (decide _); [done|]. split; [apply Qcle_refl | done].
Qed.

(** A one-year project paying 2 for 1: the true rate of return is 100%, the
    returned one is within the bounds. *)
Lemma irr_within_bisection_bounds_witness :
  ∃ m, calculate_financial_metrics (num 2) (num 0) (num 1) 1 (frac 8 100) = Ok m
       ∧ num 0 ≤ irr m ∧ irr m ≤ frac 1 2.
Proof.
  destruct (proj1 (irr_within_bisection_bounds (num 2) (num 0) (num 1) 1 (frac 8 100)))
    as (m & E).
  - apply (bool_decide_unpack _). vm_compute. reflexivity.
  - exists m. split; [exact E|].
    exact (proj2 (irr_within_bisection_bounds (num 2) (num 0) (num 1) 1 (frac 8 100)) m E).
Defined.

(** *** C3: the payback period *)

(** C3.  Whatever the horizon and the discount rate, the call returns when
    every power its two loops take is a float other than 0.0 (the defaults 25
    and 0.08 are such), and what it returns has: [payback_years = net_capex / annual_cash_flow] exactly when the
    cash flow and the net capex are positive, and [payback_years = inf] when the
    cash flow is at most 0. *)
Theorem payback_years_exact
    (annual_revenue annual_opex net_capex : Qc) (project_lifetime : Z) (discount_rate : Qc) :
  (npv_defined project_lifetime discount_rate →
   ∃ m, calculate_financial_metrics annual_revenue annual_opex net_capex
                                    project_lifetime discount_rate = Ok m)
  ∧ (∀ m, calculate_financial_metrics annual_revenue annual_opex net_capex
                                      project_lifetime discount_rate = Ok m →
          (0 < annual_revenue - annual_opex → 0 < net_capex →
           payback_years m = Finite (net_capex / (annual_revenue - annual_opex)))
          ∧ (annual_revenue - annual_opex ≤ 0 → payback_years m = Infinity)).
Proof.
  split.
  - intros Hd.
    destruct (calculate_financial_metrics_returns annual_revenue annual_opex net_capex
                project_lifetime discount_rate Hd) as (r & _ & E).
    eauto.
  - intros m H. apply metrics_inv in H as (r & _ & ->). cbn [payback_years].
    destruct (decide _) as [Hpos|Hneg]; split; try done.
    intros Hle. exfalso. by apply (Qcle_not_lt _ _ Hle).
Qed.

Lemma payback_years_exact_witness :
  ∃ m, calculate_financial_metrics (num 5) (num 0) (num 4)
         default_project_lifetime default_discount_rate = Ok m
       ∧ payback_years m = Finite (num 4 / (num 5 - num 0)).
Proof.
  destruct (proj1 (payback_years_exact (num 5) (num 0) (num 4)
                     default_project_lifetime default_discount_rate))
    as (m & E).
  - apply (bool_decide_unpack _). vm_compute. reflexivity.
  - exists m. split; [exact E|].
    apply (proj2 (payback_years_exact (num 5) (num 0) (num 4)
                    default_project_lifetime default_discount_rate) m E).
    + vm_compute. reflexivity.
    + vm_compute. reflexivity.
Defined.

(** *** C4: the net present value *)

(** C4.  For every annual revenue, annual opex, net capex, horizon and
    discount rate: the ['npv'] of whatever [calculate_financial_metrics]
    returns equals
    [-net_capex + Σ_{t=1..horizon} (annual_revenue - annual_opex) / (1 + discount_rate)^t],
    with the discount rate passed in and not the IRR of the scenario.  (The
    call returns whenever every power its two loops take is a float other than
    0.0; at a rate of -1 the sum has no value and the call raises.) *)
Theorem npv_is_discounted_cash_flow
    (annual_revenue annual_opex net_capex : Qc) (project_lifetime : Z) (discount_rate : Qc) :
  (npv_defined project_lifetime discount_rate →
   ∃ m, calculate_financial_metrics annual_revenue annual_opex net_capex
                                    project_lifetime discount_rate = Ok m)
  ∧ (∀ m, calculate_financial_metrics annual_revenue annual_opex net_capex
                                      project_lifetime discount_rate = Ok m →
          npv m = - net_capex
                  + discounted_sum (annual_revenue - annual_opex) discount_rate
                                   (Z.to_nat project_lifetime)).
Proof.
  split.
  - intros Hd.
    destruct (calculate_financial_metrics_returns annual_revenue annual_opex net_capex
                project_lifetime discount_rate Hd) as (r & _ & E).
    eauto.
  - intros m H. apply metrics_inv in H as (r & _ & ->). cbn [npv].
    apply discounted_as_sum.
Qed.

Lemma npv_is_discounted_cash_flow_witness :
  ∃ m, calculate_financial_metrics (num 5) (num 0) (num 4) 1 (frac 8 100) = Ok m
       ∧ npv m = - num 4 + discounted_sum (num 5 - num 0) (frac 8 100) (Z.to_nat 1).
Proof.
  destruct (proj1 (npv_is_discounted_cash_flow (num 5) (num 0) (num 4) 1 (frac 8 100)))
    as (m & E).
  - apply (bool_decide_unpack _). vm_compute. reflexivity.
  - exists m. split; [exact E|].
    exact (proj2 (npv_is_discounted_cash_flow (num 5) (num 0) (num 4) 1 (frac 8 100)) m E).
Defined.

(** *** C5: the CAPEX breakdown *)

Lemma contingency_factor (x : Qc) : x + x * frac 1 10 = x * frac 11 10.
Proof. qc_lra. Qed.

(** The identities hold of every breakdown the function returns. *)
Lemma site_capex_identities
    (solar_capacity_kw battery_power_kw battery_energy_kwh : Qc) (c : costs) :
  0 ≤ solar_capacity_kw → 0 ≤ battery_power_kw → 0 ≤ battery_energy_kwh →
  calculate_site_capex solar_capacity_kw battery_power_kw battery_energy_kwh = Ok c →
  subtotal c = solar_pv c + battery_power c + battery_energy c + inverter c
               + electrical c + installation c + engineering c
  ∧ total_capex c = subtotal c * frac 11 10
  ∧ net_capex c = total_capex c - itc_credit c
  ∧ net_capex c ≤ total_capex c
  ∧ total_capex c ≤ total_capex c + contingency c.
Proof.
  intros Hs Hp He H. unfold calculate_site_capex in H.
  apply bind_Ok in H as (q & _ & H). injection H as <-.
  cbn [subtotal solar_pv battery_power battery_energy inverter electrical installation
       engineering total_capex net_capex itc_credit contingency
       COST_ASSUMPTIONS solar_pv_cost_per_kw battery_storage_cost_per_kw
       battery_storage_cost_per_kwh inverter_cost_per_kw electrical_cost_per_kw
       installation_cost_per_kw engineering_cost_per_kw contingency_percentage
       itc_rate_rate].
  split_and!.
  - ring.
  - apply contingency_factor.
  - reflexivity.
  - qc_lra.
  - qc_lra.
Qed.

(** C5.  For non-negative capacities, every breakdown [calculate_site_capex]
    returns has: a subtotal that is the sum of the seven component costs, a
    [total_capex] of the subtotal times 1.10, a [net_capex] of
    [total_capex - itc_credit], and [net_capex <= total_capex]
    [<= total_capex + contingency].  (It returns one for every solar capacity
    other than 0.) *)
Theorem site_capex_breakdown_identities
    (solar_capacity_kw battery_power_kw battery_energy_kwh : Qc) :
  0 ≤ solar_capacity_kw → 0 ≤ battery_power_kw → 0 ≤ battery_energy_kwh →
  (solar_capacity_kw ≠ 0 →
   ∃ c, calculate_site_capex solar_capacity_kw battery_power_kw battery_energy_kwh = Ok c)
  ∧ (∀ c, calculate_site_capex solar_capacity_kw battery_power_kw battery_energy_kwh = Ok c →
          subtotal c = solar_pv c + battery_power c + battery_energy c + inverter c
                       + electrical c + installation c + engineering c
          ∧ total_capex c = subtotal c * frac 11 10
          ∧ net_capex c = total_capex c - itc_credit c
          ∧ net_capex c ≤ total_capex c
          ∧ total_capex c ≤ total_capex c + contingency c).
Proof.
  intros Hs Hp He. split.
  - intros Hne. unfold calculate_site_capex. rewrite truediv_ok by exact Hne. eauto.
  - intros c E. by apply (site_capex_identities _ _ _ c Hs Hp He).
Qed.

(** Site A of the optimized configuration: 550 kW solar, 275 kW / 138 kWh
    battery. *)
Lemma site_capex_breakdown_identities_witness :
  ∃ c, calculate_site_capex (num 550) (num 275) (num 138) = Ok c
       ∧ total_capex c = subtotal c * frac 11 10 ∧ net_capex c ≤ total_capex c.
Proof.
  destruct (site_capex_breakdown_identities (num 550) (num 275) (num 138))
    as [Hreturns Hidentities].
  - vm_compute. discriminate.
  - vm_compute. discriminate.
  - vm_compute. discriminate.
  - destruct Hreturns as (c & E).
    + intros H. vm_compute in H. discriminate.
    + destruct (Hidentities c E) as (_ & H2 & _ & H4 & _).
      exists c. split; [exact E|]. split; [exact H2 | exact H4].
Defined.

(** *** C6: the two divisions whose divisor can be zero *)

(** C6.  [calculate_site_capex] with a solar capacity of 0 raises
    [ZeroDivisionError] (line 116 divides [total_capex] by the capacity with no
    guard), where the claim wants a cost per kW of 0;
    [calculate_financial_metrics] with a net capex of 0 does return, with
    [roi = 0]. *)
Theorem division_by_zero_guards :
  (∀ battery_power_kw battery_energy_kwh,
     calculate_site_capex (num 0) battery_power_kw battery_energy_kwh
     = Raise ZeroDivisionError)
  ∧ (∀ annual_revenue annual_opex project_lifetime discount_rate,
       npv_defined project_lifetime discount_rate →
       ∃ m, calculate_financial_metrics annual_revenue annual_opex (num 0)
                                        project_lifetime discount_rate = Ok m
            ∧ roi m = num 0).
Proof.
  split.
  - intros bp be. unfold calculate_site_capex. by rewrite num_0, truediv_zero.
  - intros rev opex life dr Hd.
    destruct (calculate_financial_metrics_returns rev opex (num 0) life dr Hd)
      as (r & _ & E).
    eexists. split; [exact E|]. cbn [roi].
    destruct (decide (0 < num 0)) as [Hpos|_]; [|done].
    exfalso. clear E. qc_lra.
Qed.

Lemma division_by_zero_guards_witness :
  calculate_site_capex (num 0) (num 0) (num 0) = Raise ZeroDivisionError
  ∧ ∃ m, calculate_financial_metrics (num 5) (num 0) (num 0) 1 (frac 8 100) = Ok m
         ∧ roi m = num 0.
Proof.
  split.
  - apply (proj1 division_by_zero_guards).
  - apply (proj2 division_by_zero_guards).
    apply (bool_decide_unpack _). vm_compute. reflexivity.
Defined.

(** *** C7: the total of the revenue streams *)

Lemma entry_insert_total (d : gmap string value) (q : Qc) :
  entry (<["total" := Num q]> d) "total" = Some q.
Proof. unfold entry. by rewrite lookup_insert_eq. Qed.

Lemma calculate_scenario_body_revenue
    (s : gmap positive (gmap string value)) (r : positive) (d : gmap string value)
    (t o c revenue_adjustment capex_adjustment : Qc) :
  config_view s r d t o c →
  ∃ locals s',
    calculate_scenario_body revenue_adjustment capex_adjustment s = Ok (locals, s')
    ∧ s' !! local_rev locals = Some (<["total" := Num (t + revenue_adjustment)]> d).
Proof.
  intros Hview. rewrite (calculate_scenario_body_view s r d t o c Hview).
  destruct (calculate_financial_metrics_returns t o c 25 (frac 8 100) default_rate_defined)
    as (r0 & _ & ->).
  destruct (calculate_financial_metrics_returns (t + revenue_adjustment) o
              (c + capex_adjustment) 25 (frac 8 100) default_rate_defined)
    as (r1 & _ & ->).
  rewrite !bind_Ok_l. eexists _, _. split; [done|]. cbn [local_rev fst].
  apply lookup_insert_eq.
Qed.

Lemma total_adjusted_is_sum_iff (d : gmap string value) (t adj : Qc) :
  named_sum d = Some t →
  total_is_sum (<["total" := Num (t + adj)]> d) ↔ adj = 0.
Proof.
  intros Hsum. unfold total_is_sum. rewrite entry_insert_total, named_sum_insert_total, Hsum.
  split.
  - intros (t' & [= <-] & [= Ht]). qc_lra.
  - intros ->. exists t. by rewrite Qcplus_0_r.
Qed.

(** C7, counterexample.  The "Conservative" scenario of the script,
    [calculate_scenario("Conservative", revenue_adjustment=-20_000)], on the
    store of the imported module: the adjusted mapping has
    [total = 477000 - 20000 = 457000] while its six named entries still sum to
    477000. *)
Lemma revenue_total_counterexample_conservative :
  ∃ locals s' d,
    calculate_scenario_body (num (-20000)) (num 0) module_store = Ok (locals, s')
    ∧ s' !! local_rev locals = Some d
    ∧ entry d "total" = Some (num 457000)
    ∧ named_sum d = Some (num 477000)
    ∧ ¬ total_is_sum d.
Proof.
  destruct (calculate_scenario_body_revenue module_store revenue_streams_loc revenue_streams
              (num 477000) (num 43000) (num 4710145) (num (-20000)) (num 0)
              module_store_view) as (locals & s' & E & Hrev).
  exists locals, s', (<["total" := Num (num 477000 + num (-20000))]> revenue_streams).
  split_and!; [done..| | |].
  - rewrite entry_insert_total. f_equal. by apply Qc_is_canon.
  - rewrite named_sum_insert_total. apply named_sum_revenue_streams.
  - rewrite total_adjusted_is_sum_iff by apply named_sum_revenue_streams.
    intros H. vm_compute in H. discriminate.
Qed.

(** C7, as amended.  In every store whose [OPTIMIZED_CONFIG] holds a revenue
    table with [total] equal to the sum of the six named entries (any values,
    all-zero included): the mapping returned by [get_optimized_revenue_streams],
    which is also the ['revenue'] of [calculate_current_metrics], is that table,
    so its total is the sum; the adjusted mapping inside [calculate_scenario]
    keeps the named entries and has [total = sum + revenue_adjustment], so its
    total is the sum exactly when [revenue_adjustment = 0]. *)
Theorem revenue_total_after_adjustment
    (s : gmap positive (gmap string value)) (r : positive) (d : gmap string value)
    (t o c revenue_adjustment capex_adjustment : Qc) :
  config_view s r d t o c →
  named_sum d = Some t →
  (∃ l s', get_optimized_revenue_streams s = Ok (l, s')
           ∧ s' !! l = Some d ∧ total_is_sum d)
  ∧ (∃ data s', calculate_current_metrics s = Ok (data, s')
                ∧ s' !! revenue data = Some d)
  ∧ (∃ locals s' d',
       calculate_scenario_body revenue_adjustment capex_adjustment s = Ok (locals, s')
       ∧ s' !! local_rev locals = Some d'
       ∧ entry d' "total" = Some (t + revenue_adjustment)
       ∧ named_sum d' = Some t
       ∧ (total_is_sum d' ↔ revenue_adjustment = 0)).
Proof.
  intros Hview Hsum. split_and!.
  - eexists _, _. split; [by apply (get_optimized_revenue_streams_view s r d t o c)|].
    split; [apply lookup_insert_eq|].
    exists t. split; [|done]. unfold entry. by rewrite (view_total _ _ _ _ _ _ Hview).
  - rewrite (calculate_current_metrics_view s r d t o c Hview).
    destruct (calculate_financial_metrics_returns t o c 25 (frac 8 100)
                default_rate_defined) as (r0 & _ & ->).
    rewrite bind_Ok_l. eexists _, _. split; [done|]. apply lookup_insert_eq.
  - destruct (calculate_scenario_body_revenue s r d t o c revenue_adjustment
                capex_adjustment Hview) as (locals & s' & E & Hrev).
    exists locals, s', (<["total" := Num (t + revenue_adjustment)]> d).
    split_and!; [done..| | |].
    + apply entry_insert_total.
    + by rewrite named_sum_insert_total.
    + by apply total_adjusted_is_sum_iff.
Qed.

Lemma revenue_total_after_adjustment_witness :
  ∃ locals s' d',
    calculate_scenario_body (num 20000) (num 0) module_store = Ok (locals, s')
    ∧ s' !! local_rev locals = Some d'
    ∧ entry d' "total" = Some (num 477000 + num 20000)
    ∧ named_sum d' = Some (num 477000).
Proof.
  destruct (revenue_total_after_adjustment module_store revenue_streams_loc revenue_streams
              (num 477000) (num 43000) (num 4710145) (num 20000) (num 0)
              module_store_view named_sum_revenue_streams)
    as (_ & _ & locals & s' & d' & E & Hrev & Htotal & Hsum & _).
  exists locals, s', d'.
  split; [exact E|]. split; [exact Hrev|]. split; [exact Htotal|exact Hsum].
Defined.

(** *** C8: monotonicity of IRR and NPV *)

Lemma discounted_mono_acc (cash rate : Qc) (years : list nat) (a1 a2 : Qc) :
  a1 ≤ a2 → discounted cash rate years a1 ≤ discounted cash rate years a2.
Proof.
  revert a1 a2. induction years as [|y ys IH]; intros a1 a2 Ha; cbn.
  - exact Ha.
  - apply IH. apply Qcplus_le_compat; [exact Ha | apply Qcle_refl].
Qed.

(** More revenue and less capex together: the residual NPV grows at every
    trial rate, so the two bisections agree until the run with the larger
    residual turns to the upper half, or stops, first.  The discount rate
    plays no part in the IRR. *)
Lemma irr_monotone_returned (rev1 rev2 opex capex1 capex2 : Qc) (life : Z) (dr : Qc) m1 m2 :
  rev1 ≤ rev2 → capex2 ≤ capex1 →
  calculate_financial_metrics rev1 opex capex1 life dr = Ok m1 →
  calculate_financial_metrics rev2 opex capex2 life dr = Ok m2 →
  irr m1 ≤ irr m2
  ∧ npv m1 = npv_at (rev1 - opex) capex1 life dr
  ∧ npv m2 = npv_at (rev2 - opex) capex2 life dr.
Proof.
  intros Hrev Hcapex E1 E2.
  assert (Hcash : rev1 - opex ≤ rev2 - opex) by (clear -Hrev; qc_lra).
  apply metrics_inv in E1 as (r1 & (Hr1 & Hlo1 & _) & ->).
  apply metrics_inv in E2 as (r2 & (Hr2 & Hlo2 & _) & ->).
  split_and!; [|reflexivity..]. cbn [irr].
  destruct (irr_loop_mono (rev1 - opex) (rev2 - opex) capex1 capex2 life 100
              (num 0) (frac 1 2) None (Some r1) (Some r2))
    as (r1' & r2' & [= <-] & [= <-] & Hle);
    [done | done | done | done | by right | exact Hr1 | exact Hr2 |].
  destruct (decide (0 < rev1 - opex)) as [H1|H1];
    destruct (decide (0 < rev2 - opex)) as [H2|H2];
    [exact Hle | | exact Hlo2 | apply Qcle_refl].
  exfalso. apply H2. by apply Qclt_le_trans with (rev1 - opex).
Qed.

Lemma irr_monotone (rev1 rev2 opex capex1 capex2 : Qc) (life : Z) (dr : Qc) :
  npv_defined life dr → rev1 ≤ rev2 → capex2 ≤ capex1 →
  ∃ m1 m2,
    calculate_financial_metrics rev1 opex capex1 life dr = Ok m1
    ∧ calculate_financial_metrics rev2 opex capex2 life dr = Ok m2
    ∧ irr m1 ≤ irr m2
    ∧ npv m1 = npv_at (rev1 - opex) capex1 life dr
    ∧ npv m2 = npv_at (rev2 - opex) capex2 life dr.
Proof.
  intros Hd Hrev Hcapex.
  destruct (calculate_financial_metrics_returns rev1 opex capex1 life dr Hd)
    as (r1 & _ & E1).
  destruct (calculate_financial_metrics_returns rev2 opex capex2 life dr Hd)
    as (r2 & _ & E2).
  eexists _, _. split; [exact E1|]. split; [exact E2|].
  exact (irr_monotone_returned _ _ _ _ _ _ _ _ _ Hrev Hcapex E1 E2).
Qed.

(** C8, counterexample.  One year, no opex, no capex, discount rate -1.5:
    the only discount factor is [(1 - 1.5) ** 1 = -0.5], so raising the
    revenue from 0 to 1 lowers the NPV from 0 to -2. *)
Lemma npv_monotone_counterexample_rate_below_minus_one :
  ∃ m1 m2,
    calculate_financial_metrics (num 0) (num 0) (num 0) 1 (- frac 3 2) = Ok m1
    ∧ calculate_financial_metrics (num 1) (num 0) (num 0) 1 (- frac 3 2) = Ok m2
    ∧ num 0 ≤ num 1
    ∧ npv m2 < npv m1.
Proof.
  destruct (calculate_financial_metrics (num 0) (num 0) (num 0) 1 (- frac 3 2))
    as [m1|e1] eqn:E1; [|vm_compute in E1; discriminate].
  destruct (calculate_financial_metrics (num 1) (num 0) (num 0) 1 (- frac 3 2))
    as [m2|e2] eqn:E2; [|vm_compute in E2; discriminate].
  exists m1, m2. split_and!; [reflexivity | reflexivity | by vm_compute |].
  apply metrics_inv in E1 as (? & _ & ->). apply metrics_inv in E2 as (? & _ & ->).
  cbn [npv]. vm_compute. reflexivity.
Qed.

(** C8, as amended.  All other inputs fixed, of any two calls that return:
    with a larger annual revenue the ['irr'] is not smaller, and the ['npv']
    is not smaller provided the discount rate is greater than -1; with a
    larger net capex neither ['irr'] nor ['npv'] is larger.  (The calls return
    whenever every power the two loops take is a float other than 0.0.) *)
Theorem irr_npv_monotone
    (annual_revenue annual_revenue' annual_opex net_capex net_capex' : Qc)
    (project_lifetime : Z) (discount_rate : Qc) :
  (annual_revenue ≤ annual_revenue' →
   ∀ m m',
     calculate_financial_metrics annual_revenue annual_opex net_capex
                                 project_lifetime discount_rate = Ok m →
     calculate_financial_metrics annual_revenue' annual_opex net_capex
                                 project_lifetime discount_rate = Ok m' →
     irr m ≤ irr m' ∧ (- num 1 < discount_rate → npv m ≤ npv m'))
  ∧ (net_capex ≤ net_capex' →
     ∀ m m',
       calculate_financial_metrics annual_revenue annual_opex net_capex
                                   project_lifetime discount_rate = Ok m →
       calculate_financial_metrics annual_revenue annual_opex net_capex'
                                   project_lifetime discount_rate = Ok m' →
       irr m' ≤ irr m ∧ npv m' ≤ npv m)
  ∧ (npv_defined project_lifetime discount_rate →
     ∀ revenue capex,
       ∃ m, calculate_financial_metrics revenue annual_opex capex
                                        project_lifetime discount_rate = Ok m).
Proof.
  split_and!.
  - intros Hrev m m' E E'.
    destruct (irr_monotone_returned _ _ _ _ _ _ _ _ _ Hrev (Qcle_refl _) E E')
      as (Hirr & Hnpv & Hnpv').
    split; [exact Hirr|]. intros Hdr. rewrite Hnpv, Hnpv'.
    apply npv_at_mono; [clear -Hdr; qc_lra | | apply Qcle_refl].
    clear -Hrev. qc_lra.
  - intros Hcapex m m' E E'.
    destruct (irr_monotone_returned _ _ _ _ _ _ _ _ _ (Qcle_refl _) Hcapex E' E)
      as (Hirr & Hnpv' & Hnpv).
    split; [exact Hirr|].
    rewrite Hnpv, Hnpv'. apply discounted_mono_acc. by apply Qcopp_le_compat.
  - intros Hd revenue capex.
    destruct (calculate_financial_metrics_returns revenue annual_opex capex
                project_lifetime discount_rate Hd) as (r & _ & E).
    eauto.
Qed.

(** The base PPA revenue against the full revenue of the optimized
    configuration. *)
Lemma irr_npv_monotone_witness :
  ∃ m m',
    calculate_financial_metrics (num 243000) (num 43000) (num 4710145) 25 (frac 8 100) = Ok m
    ∧ calculate_financial_metrics (num 477000) (num 43000) (num 4710145) 25 (frac 8 100)
      = Ok m'
    ∧ irr m ≤ irr m' ∧ npv m ≤ npv m'.
Proof.
  destruct (irr_npv_monotone (num 243000) (num 477000) (num 43000) (num 4710145)
              (num 4710145) 25 (frac 8 100)) as (Hrevenue & _ & Hreturns).
  assert (Hd : npv_defined 25 (frac 8 100)).
  { apply (bool_decide_unpack _). vm_compute. reflexivity. }
  destruct (Hreturns Hd (num 243000) (num 4710145)) as (m & E).
  destruct (Hreturns Hd (num 477000) (num 4710145)) as (m' & E').
  destruct (Hrevenue ltac:(vm_compute; discriminate) m m' E E') as (Hirr & Hnpv).
  exists m, m'. split; [exact E|]. split; [exact E'|]. split; [exact Hirr|].
  apply Hnpv. vm_compute. reflexivity.
Defined.

(** *** C9: the scenario of the optimized configuration *)

(** The first twelve iterations of the bisection, none of which meets the
    tolerance, leave the bracket [19/4096, 39/8192]. *)
Lemma scenario_bracket_12 :
  bracket_as_Q (irr_bracket_after (num 243000 - num 43000) (num 4710145) 25 12
                                  (num 0) (frac 1 2))
  = Some (19 # 4096, 39 # 8192)%Q.
Proof. vm_compute. reflexivity. Qed.

(** C9.  With revenue 243000, opex 43000, net capex 4710145 (the
    [net_capex_usd] of [OPTIMIZED_CONFIG]), 25 years and 8%:
    the annual cash flow is 200000; the payback is 4710145/200000 years, which
    is 23.6 to one decimal; the IRR lies between 19/4096 and 39/8192, that is
    between 0.4638% and 0.4761%: positive, under one percent, below the 10%
    target, and fixed to within 0.013 of a percentage point. *)
Theorem optimized_scenario_metrics :
  getitem module_store OPTIMIZED_CONFIG "net_capex_usd" = Ok (Num (num 4710145))
  ∧ ∃ m, calculate_financial_metrics (num 243000) (num 43000) (num 4710145) 25 (frac 8 100)
         = Ok m
    ∧ annual_cash_flow m = num 200000
    ∧ payback_years m = Finite (frac 4710145 200000)
    ∧ frac 2355 100 ≤ frac 4710145 200000 ∧ frac 4710145 200000 < frac 2365 100
    ∧ frac 19 4096 ≤ irr m ∧ irr m ≤ frac 39 8192
    ∧ num 0 < irr m ∧ irr m < frac 10 100.
Proof.
  split; [reflexivity|].
  destruct (calculate_financial_metrics_returns (num 243000) (num 43000) (num 4710145)
              25 (frac 8 100) default_rate_defined) as (r & (Hr & _ & _) & E).
  assert (Hb : frac 19 4096 ≤ r ∧ r ≤ frac 39 8192).
  { pose proof scenario_bracket_12 as Hq.
    destruct (irr_bracket_after _ _ _ _ _ _) as [[lo hi]|] eqn:Hbr; [|discriminate].
    assert (H1 : num 0 < frac 1 2) by reflexivity.
    destruct (irr_loop_after _ _ _ 12 87 _ _ _ _ None _ H1 Hbr Hr)
      as (r' & [= <-] & Hlo & Hhi).
    injection Hq as Hlo_q Hhi_q.
    assert (lo = frac 19 4096) as <- by (apply Qc_is_canon; rewrite Hlo_q; reflexivity).
    assert (hi = frac 39 8192) as <- by (apply Qc_is_canon; rewrite Hhi_q; reflexivity).
    split; assumption. }
  destruct Hb as [Hlo Hhi].
  assert (Hcf : 0 < num 243000 - num 43000) by reflexivity.
  eexists. split; [exact E|]. cbn [annual_cash_flow payback_years irr].
  destruct (decide (0 < num 243000 - num 43000)) as [_|Hn]; [|by destruct Hn].
  split_and!.
  - by apply Qc_is_canon.
  - f_equal; by apply Qc_is_canon.
  - by vm_compute.
  - by vm_compute.
  - exact Hlo.
  - exact Hhi.
  - apply Qclt_le_trans with (frac 19 4096); [reflexivity | exact Hlo].
  - apply Qcle_lt_trans with (frac 39 8192); [exact Hhi | reflexivity].
Qed.

(** *** C10: [OPTIMIZED_CONFIG] is never changed *)

Lemma subseteq_config_unchanged (s s' : gmap positive (gmap string value)) :
  s ⊆ s' → config_unchanged s s'.
Proof. intros Hsub. split; [done|]. intros depth o. by apply snapshot_weaken. Qed.

Lemma fresh_copy_intro (s s' : gmap positive (gmap string value)) l :
  s !! l = None → s ⊆ s' → fresh_copy s l s'.
Proof.
  intros Hl Hsub. split_and!; [done | by apply subseteq_config_unchanged |].
  intros key v s'' Hset. apply subseteq_config_unchanged.
  by eapply setitem_fresh_frame.
Qed.

(** The configuration of the imported module can be read to its full depth
    (the top dictionary, its nested dictionaries, the three sites). *)
Lemma module_store_snapshot :
  is_Some (snapshot 3 module_store (Ref OPTIMIZED_CONFIG)).
Proof. vm_compute. eexists. reflexivity. Qed.

(** C10.  From any store: [get_optimized_revenue_streams] and
    [get_optimized_site_config] return a dictionary that did not exist before
    and has the entries of the configuration's, so that no assignment into it
    reaches the configuration;
    [calculate_current_metrics] and [calculate_scenario] leave every dictionary
    that existed before the call as it was, and [OPTIMIZED_CONFIG] reads the
    same after the call as before, nested dictionaries included.  In a store
    where the configuration is in place both functions do return. *)
Theorem optimized_config_frame (s : gmap positive (gmap string value)) :
  (∀ l s', get_optimized_revenue_streams s = Ok (l, s') →
           fresh_copy s l s'
           ∧ ∃ r, getitem s OPTIMIZED_CONFIG "revenue_streams" = Ok (Ref r)
                  ∧ s' !! l = s !! r)
  ∧ (∀ site_name l s', get_optimized_site_config site_name s = Ok (l, s') →
       fresh_copy s l s'
       ∧ ∃ sites site, getitem s OPTIMIZED_CONFIG "sites" = Ok (Ref sites)
                       ∧ getitem s sites site_name = Ok (Ref site)
                       ∧ s' !! l = s !! site)
  ∧ (∀ data s', calculate_current_metrics s = Ok (data, s') → config_unchanged s s')
  ∧ (∀ scenario_name revenue_adjustment capex_adjustment m s',
       calculate_scenario scenario_name revenue_adjustment capex_adjustment s = Ok (m, s') →
       config_unchanged s s')
  ∧ (∀ r d t o c, config_view s r d t o c →
       (∃ data s', calculate_current_metrics s = Ok (data, s'))
       ∧ ∀ scenario_name revenue_adjustment capex_adjustment,
           ∃ m s', calculate_scenario scenario_name revenue_adjustment capex_adjustment s
                   = Ok (m, s')).
Proof.
  split_and!.
  - intros l s' H. apply get_optimized_revenue_streams_frame in H as (Hl & Hsub & Hcopy).
    split; [by apply fresh_copy_intro | exact Hcopy].
  - intros site_name l s' H.
    apply get_optimized_site_config_frame in H as (Hl & Hsub & Hcopy).
    split; [by apply fresh_copy_intro | exact Hcopy].
  - intros data s' H. apply calculate_current_metrics_frame in H as (_ & Hsub & _).
    by apply subseteq_config_unchanged.
  - intros scenario_name ra ca m s' H. apply calculate_scenario_frame in H.
    by apply subseteq_config_unchanged.
  - intros r d t o c Hview. split.
    + rewrite (calculate_current_metrics_view s r d t o c Hview).
      destruct (calculate_financial_metrics_returns t o c 25 (frac 8 100)
                  default_rate_defined) as (r0 & _ & ->).
      rewrite bind_Ok_l. eauto.
    + intros scenario_name ra ca. unfold calculate_scenario.
      destruct (calculate_scenario_body_revenue s r d t o c ra ca Hview)
        as (locals & s' & -> & _).
      rewrite bind_Ok_l. eauto.
Qed.

Lemma optimized_config_frame_witness :
  ∃ l s', get_optimized_revenue_streams module_store = Ok (l, s')
          ∧ module_store !! l = None ∧ module_store ⊆ s'.
Proof.
  exists (fresh (dom module_store)),
         (<[fresh (dom module_store) := revenue_streams]> module_store).
  assert (E : get_optimized_revenue_streams module_store
              = Ok (fresh (dom module_store),
                    <[fresh (dom module_store) := revenue_streams]> module_store)).
  { exact (get_optimized_revenue_streams_view module_store revenue_streams_loc
             revenue_streams (num 477000) (num 43000) (num 4710145) module_store_view). }
  destruct (proj1 (optimized_config_frame module_store) _ _ E)
    as ((Hl & (Hsub & _) & _) & _).
  split; [exact E|]. split; [exact Hl | exact Hsub].
Defined.

(** * Further properties of the code *)

Import CapexAnalysisSites.

(** ** Loops *)

Lemma for_each_app {A S} (xs ys : list A) (body : A → S → result S) (st : S) :
  for_each (xs ++ ys) body st = for_each xs body st ≫= for_each ys body.
Proof.
  revert st. induction xs as [|x xs IH]; intros st; cbn; [done|].
  destruct (body x st) as [st'|e]; cbn; [apply IH | done].
Qed.

Lemma for_each_fixed {A S} (xs : list A) (body : A → S → result S) (st : S) :
  Forall (fun x => body x st = Ok st) xs → for_each xs body st = Ok st.
Proof.
  induction 1 as [|x xs Hx _ IH]; cbn; [done|]. rewrite Hx. exact IH.
Qed.

Lemma for_each_invariant {A S} (P : S → Prop) (Q : A → Prop)
    (xs : list A) (body : A → S → result S) (st : S) :
  Forall Q xs → P st →
  (∀ x st, Q x → P st → ∃ st', body x st = Ok st' ∧ P st') →
  ∃ st', for_each xs body st = Ok st' ∧ P st'.
Proof.
  intros Hxs Hst Hbody. revert st Hst.
  induction Hxs as [|x xs Hx _ IH]; intros st Hst; cbn; [eauto|].
  destruct (Hbody x st Hx Hst) as (st' & -> & Hst'). cbn. by apply IH.
Qed.

Lemma item_Ok (d : gmap string Qc) (key : string) (v : Qc) :
  d !! key = Some v → item d key = Ok v.
Proof. unfold item. by intros ->. Qed.

(** ** [analyze_all_sites_capex] *)

Lemma capacities_of_Some (capacities : gmap string Qc) s p e :
  capacities_of capacities = Some (s, p, e) ↔
  capacities !! "solar_kw" = Some s ∧ capacities !! "battery_kw" = Some p
  ∧ capacities !! "battery_kwh" = Some e.
Proof.
  unfold capacities_of. split.
  - destruct (capacities !! "solar_kw") as [s'|]; [|done].
    destruct (capacities !! "battery_kw") as [p'|]; [|done].
    destruct (capacities !! "battery_kwh") as [e'|]; [|done].
    cbn. by intros [= -> -> ->].
  - by intros (-> & -> & ->).
Qed.

Lemma calculate_site_capex_Ok (s p e : Qc) :
  s ≠ 0 →
  ∃ c, calculate_site_capex s p e = Ok c
       ∧ total_capex c = num 2090 * s + num 1045 * p + num 440 * e
       ∧ net_capex c = total_capex c
       ∧ annual_opex c = num 25 * s
       ∧ battery_total c = num 800 * p + num 400 * e
       ∧ cost_per_kw c = total_capex c / s.
Proof.
  intros Hs. unfold calculate_site_capex. rewrite truediv_ok by done.
  eexists. split; [reflexivity|].
  cbn [total_capex net_capex annual_opex battery_total cost_per_kw
       COST_ASSUMPTIONS solar_pv_cost_per_kw battery_storage_cost_per_kw
       battery_storage_cost_per_kwh inverter_cost_per_kw electrical_cost_per_kw
       installation_cost_per_kw engineering_cost_per_kw contingency_percentage
       itc_rate_rate opex_per_kw_annual].
  split_and!; try reflexivity; qc_lra.
Qed.

Lemma calculate_site_capex_zero (p e : Qc) :
  calculate_site_capex 0 p e = Raise ZeroDivisionError.
Proof. unfold calculate_site_capex. by rewrite truediv_zero. Qed.

Lemma calculate_site_capex_inv (s p e : Qc) (c : costs) :
  calculate_site_capex s p e = Ok c →
  s ≠ 0
  ∧ total_capex c = num 2090 * s + num 1045 * p + num 440 * e
  ∧ net_capex c = total_capex c
  ∧ annual_opex c = num 25 * s
  ∧ battery_total c = num 800 * p + num 400 * e
  ∧ cost_per_kw c = total_capex c / s.
Proof.
  intros H. destruct (decide (s = 0)) as [->|Hs].
  - by rewrite calculate_site_capex_zero in H.
  - destruct (calculate_site_capex_Ok s p e Hs) as (c' & E & Hc).
    assert (c' = c) as -> by congruence. by split.
Qed.

Lemma site_step_inv name capacities st st' :
  site_step (name, capacities) st = Ok st' →
  ∃ s p e c,
    capacities_of capacities = Some (s, p, e)
    ∧ calculate_site_capex s p e = Ok c
    ∧ st' = {| Running.sites := <[name := c]> (Running.sites st);
               Running.total_solar_kw := Running.total_solar_kw st + s;
               Running.total_battery_kw := Running.total_battery_kw st + p;
               Running.total_battery_kwh := Running.total_battery_kwh st + e;
               Running.total_capex := Running.total_capex st + total_capex c;
               Running.total_net_capex := Running.total_net_capex st + net_capex c;
               Running.total_opex := Running.total_opex st + annual_opex c |}.
Proof.
  unfold site_step, item, capacities_of.
  destruct (capacities !! "solar_kw") as [s|]; [|done].
  destruct (capacities !! "battery_kw") as [p|]; [|done].
  destruct (capacities !! "battery_kwh") as [e|]; [|done].
  cbn. destruct (calculate_site_capex s p e) as [c|] eqn:E; [|done].
  cbn. intros [= <-]. by exists s, p, e, c.
Qed.

Lemma site_step_Ok name capacities st s p e :
  capacities_of capacities = Some (s, p, e) →
  site_step (name, capacities) st
  = c ← calculate_site_capex s p e;
    Ok {| Running.sites := <[name := c]> (Running.sites st);
          Running.total_solar_kw := Running.total_solar_kw st + s;
          Running.total_battery_kw := Running.total_battery_kw st + p;
          Running.total_battery_kwh := Running.total_battery_kwh st + e;
          Running.total_capex := Running.total_capex st + total_capex c;
          Running.total_net_capex := Running.total_net_capex st + net_capex c;
          Running.total_opex := Running.total_opex st + annual_opex c |}.
Proof.
  intros (Hs & Hp & He)%capacities_of_Some. unfold site_step, item.
  by rewrite Hs, Hp, He.
Qed.

Lemma total_of_cons key name capacities sc :
  total_of key ((name, capacities) :: sc)
  = default 0 (capacities !! key) + total_of key sc.
Proof. reflexivity. Qed.

(** The running totals after the loop over the sites: the sums of the
    capacities, and costs that are linear in them. *)
Lemma site_loop_totals sc st st' :
  for_each sc site_step st = Ok st' →
  Running.total_solar_kw st' = Running.total_solar_kw st + total_of "solar_kw" sc
  ∧ Running.total_battery_kw st' = Running.total_battery_kw st + total_of "battery_kw" sc
  ∧ Running.total_battery_kwh st'
    = Running.total_battery_kwh st + total_of "battery_kwh" sc
  ∧ Running.total_capex st'
    = Running.total_capex st + (num 2090 * total_of "solar_kw" sc
                                + num 1045 * total_of "battery_kw" sc
                                + num 440 * total_of "battery_kwh" sc)
  ∧ Running.total_net_capex st'
    = Running.total_net_capex st + (num 2090 * total_of "solar_kw" sc
                                    + num 1045 * total_of "battery_kw" sc
                                    + num 440 * total_of "battery_kwh" sc)
  ∧ Running.total_opex st' = Running.total_opex st + num 25 * total_of "solar_kw" sc.
Proof.
  revert st. induction sc as [|[name capacities] sc IH]; intros st H.
  - cbn in H. injection H as <-. unfold total_of. cbn. split_and!; qc_lra.
  - cbn [for_each] in H. apply bind_Ok in H as (st1 & H1 & H).
    apply site_step_inv in H1 as (s & p & e & c & Hcaps & Hc & ->).
    apply capacities_of_Some in Hcaps as (Hs & Hp & He).
    apply calculate_site_capex_inv in Hc as (_ & Ht & Hn & Ho & _).
    apply IH in H as (E1 & E2 & E3 & E4 & E5 & E6). cbn in E1, E2, E3, E4, E5, E6.
    rewrite !total_of_cons, Hs, Hp, He. unfold default, from_option, id.
    rewrite E1, E2, E3, E4, E5, E6, Hn, Ht, Ho.
    split_and!; ring.
Qed.

Lemma site_loop_sites sc st st' :
  for_each sc site_step st = Ok st' →
  NoDup sc.*1 →
  (∀ name, name ∉ sc.*1 → Running.sites st' !! name = Running.sites st !! name)
  ∧ (∀ name capacities, (name, capacities) ∈ sc →
       ∃ s p e c, capacities_of capacities = Some (s, p, e)
                  ∧ calculate_site_capex s p e = Ok c
                  ∧ Running.sites st' !! name = Some c).
Proof.
  revert st. induction sc as [|[name0 capacities0] sc IH]; intros st H Hnd.
  - cbn in H. injection H as <-. split; [done|]. intros ?? Hin. by apply elem_of_nil in Hin.
  - cbn [for_each] in H. apply bind_Ok in H as (st1 & H1 & H).
    apply site_step_inv in H1 as (s & p & e & c & Hcaps & Hc & ->).
    cbn in Hnd. apply NoDup_cons in Hnd as (Hname0 & Hnd).
    destruct (IH _ H Hnd) as (Hout & Hin). cbn in Hout. split.
    + intros name Hname. cbn in Hname. apply not_elem_of_cons in Hname as (Hne & Hname).
      rewrite Hout by done. by rewrite lookup_insert_ne.
    + intros name capacities [[= -> ->]|Hel]%elem_of_cons.
      * exists s, p, e, c. split_and!; [done | done |].
        rewrite Hout by done. by rewrite lookup_insert_eq.
      * by apply Hin.
Qed.

Lemma site_loop_returns sc st :
  Forall (fun site => ∃ s p e, capacities_of site.2 = Some (s, p, e) ∧ s ≠ 0) sc →
  ∃ st', for_each sc site_step st = Ok st'.
Proof.
  intros Hsc. revert st. induction Hsc as [|[name capacities] sc (s & p & e & Hcaps & Hs) _ IH];
    intros st; cbn [for_each]; [eauto|].
  rewrite (site_step_Ok _ _ _ _ _ _ Hcaps).
  destruct (calculate_site_capex_Ok s p e Hs) as (c & -> & _). cbn. apply IH.
Qed.

Lemma site_loop_raises sc st :
  Forall (fun site => is_Some (capacities_of site.2)) sc →
  Exists (fun site => site.2 !! "solar_kw" = Some 0) sc →
  for_each sc site_step st = Raise ZeroDivisionError.
Proof.
  intros Hsc Hex. revert st.
  induction Hsc as [|[name capacities] sc [[[s p] e] Hcaps] Hsc IH]; intros st.
  - by apply Exists_nil in Hex.
  - cbn [for_each]. rewrite (site_step_Ok _ _ _ _ _ _ Hcaps).
    destruct (decide (s = 0)) as [->|Hs].
    + by rewrite calculate_site_capex_zero.
    + destruct (calculate_site_capex_Ok s p e Hs) as (c & -> & _). cbn.
      apply IH. apply Exists_cons in Hex as [Hhd|Htl]; [|done].
      apply capacities_of_Some in Hcaps as (Hs' & _). cbn [snd] in Hs', Hhd.
      rewrite Hs' in Hhd. by injection Hhd.
Qed.

Lemma scenario_step_Ok (opex capex : Qc) name revenue scenarios :
  ∃ m, calculate_financial_metrics revenue opex capex
         default_project_lifetime default_discount_rate = Ok m
       ∧ scenario_step opex capex (name, revenue) scenarios
         = Ok (<[name := {| Scenario.annual_revenue := revenue;
                            Scenario.annual_opex := opex;
                            Scenario.net_capex := capex;
                            Scenario.metrics := m |}]> scenarios).
Proof.
  destruct (calculate_financial_metrics_returns revenue opex capex
              default_project_lifetime default_discount_rate default_rate_defined)
    as (r & _ & E).
  eexists. split; [exact E|]. unfold scenario_step. rewrite E. reflexivity.
Qed.

Lemma scenario_loop_returns (opex capex : Qc) ar scenarios :
  ∃ scenarios', for_each ar (scenario_step opex capex) scenarios = Ok scenarios'.
Proof.
  revert scenarios. induction ar as [|[name revenue] ar IH]; intros scenarios;
    cbn [for_each]; [eauto|].
  destruct (scenario_step_Ok opex capex name revenue scenarios) as (m & _ & ->).
  cbn. apply IH.
Qed.

Lemma scenario_loop_entries (opex capex : Qc) ar scenarios scenarios' :
  for_each ar (scenario_step opex capex) scenarios = Ok scenarios' →
  NoDup ar.*1 →
  (∀ name, name ∉ ar.*1 → scenarios' !! name = scenarios !! name)
  ∧ (∀ name revenue, (name, revenue) ∈ ar →
       ∃ m, calculate_financial_metrics revenue opex capex
              default_project_lifetime default_discount_rate = Ok m
            ∧ scenarios' !! name
              = Some {| Scenario.annual_revenue := revenue;
                        Scenario.annual_opex := opex;
                        Scenario.net_capex := capex;
                        Scenario.metrics := m |}).
Proof.
  revert scenarios. induction ar as [|[name0 revenue0] ar IH]; intros scenarios H Hnd.
  - cbn in H. injection H as <-. split; [done|]. intros ?? Hin. by apply elem_of_nil in Hin.
  - cbn [for_each] in H.
    destruct (scenario_step_Ok opex capex name0 revenue0 scenarios) as (m0 & Hm0 & E).
    rewrite E in H. cbn in H.
    cbn in Hnd. apply NoDup_cons in Hnd as (Hname0 & Hnd).
    destruct (IH _ H Hnd) as (Hout & Hin). split.
    + intros name Hname. cbn in Hname. apply not_elem_of_cons in Hname as (Hne & Hname).
      rewrite Hout by done. by rewrite lookup_insert_ne.
    + intros name revenue [[= -> ->]|Hel]%elem_of_cons.
      * exists m0. split; [done|]. rewrite Hout by done. by rewrite lookup_insert_eq.
      * by apply Hin.
Qed.

Lemma analyze_all_sites_capex_inv sc ar a :
  analyze_all_sites_capex sc ar = Ok a →
  ∃ st,
    for_each sc site_step initial_running = Ok st
    ∧ for_each ar (scenario_step (Running.total_opex st) (Running.total_net_capex st)) ∅
      = Ok (Analysis.scenarios a)
    ∧ Analysis.sites a = Running.sites st
    ∧ Analysis.aggregate a
      = {| Aggregate.total_solar_kw := Running.total_solar_kw st;
           Aggregate.total_battery_kw := Running.total_battery_kw st;
           Aggregate.total_battery_kwh := Running.total_battery_kwh st;
           Aggregate.total_capex := Running.total_capex st;
           Aggregate.total_net_capex := Running.total_net_capex st;
           Aggregate.total_opex := Running.total_opex st;
           Aggregate.cost_per_kw :=
             if decide (0 < Running.total_solar_kw st)
             then Running.total_capex st / Running.total_solar_kw st else num 0;
           Aggregate.cost_per_mw :=
             if decide (0 < Running.total_solar_kw st)
             then Running.total_capex st / Running.total_solar_kw st * num 1000
             else num 0 |}.
Proof.
  unfold analyze_all_sites_capex. fold initial_running. intros H.
  apply bind_Ok in H as (st & Hst & H). exists st. split; [exact Hst|].
  destruct (decide (0 < Running.total_solar_kw st)) as [Hpos|Hpos].
  - rewrite !truediv_pos in H by done. cbn in H.
    apply bind_Ok in H as (scen & Hscen & H). injection H as <-. by cbn.
  - cbn in H. apply bind_Ok in H as (scen & Hscen & H). injection H as <-. by cbn.
Qed.

Lemma analyze_all_sites_capex_Ok sc ar st :
  for_each sc site_step initial_running = Ok st →
  ∃ a, analyze_all_sites_capex sc ar = Ok a.
Proof.
  intros Hst. unfold analyze_all_sites_capex. fold initial_running. rewrite Hst. cbn.
  destruct (scenario_loop_returns (Running.total_opex st) (Running.total_net_capex st)
              ar ∅) as (scen & Hscen).
  destruct (decide (0 < Running.total_solar_kw st)) as [Hpos|Hpos].
  - rewrite !truediv_pos by done. cbn. rewrite Hscen. cbn. eauto.
  - cbn. rewrite Hscen. cbn. eauto.
Qed.

Lemma example_sites_keyed :
  Forall (fun site => ∃ s p e, capacities_of site.2 = Some (s, p, e) ∧ s ≠ 0)
         example_site_capacities.
Proof.
  repeat constructor; eexists _, _, _; (split; [reflexivity | by vm_compute]).
Qed.

(** *** X1: a site without solar capacity *)

(** X1.  When every site gives its three capacities, [analyze_all_sites_capex]
    returns an analysis if no site has a solar capacity of 0, and raises
    [ZeroDivisionError] if some site has: the aggregate cost per kW is
    guarded, the per-site one is not. *)
Theorem analyze_all_sites_capex_zero_solar
    (site_capacities : list (string * gmap string Qc))
    (annual_revenues : list (string * Qc)) :
  Forall (fun site => is_Some (capacities_of site.2)) site_capacities →
  (Forall (fun site => site.2 !! "solar_kw" ≠ Some 0) site_capacities →
   ∃ a, analyze_all_sites_capex site_capacities annual_revenues = Ok a)
  ∧ (Exists (fun site => site.2 !! "solar_kw" = Some 0) site_capacities →
     analyze_all_sites_capex site_capacities annual_revenues = Raise ZeroDivisionError).
Proof.
  intros Hkeys. split.
  - intros Hsolar.
    destruct (site_loop_returns site_capacities initial_running) as (st & Hst).
    + apply Forall_forall. intros site Hin.
      destruct (proj1 (Forall_forall _ _) Hkeys site Hin) as [[[s p] e] Hcaps].
      exists s, p, e. split; [exact Hcaps|]. intros ->.
      apply (proj1 (Forall_forall _ _) Hsolar site Hin).
      by apply capacities_of_Some in Hcaps as (-> & _).
    + by apply analyze_all_sites_capex_Ok with st.
  - intros Hzero. unfold analyze_all_sites_capex. fold initial_running.
    by rewrite site_loop_raises.
Qed.

Lemma analyze_all_sites_capex_zero_solar_witness :
  analyze_all_sites_capex
    [("Site_A", {[ "solar_kw" := num 550; "battery_kw" := num 275;
                   "battery_kwh" := num 138 ]});
     ("Site_D", {[ "solar_kw" := num 0; "battery_kw" := num 100;
                   "battery_kwh" := num 200 ]})]
    example_annual_revenues
  = Raise ZeroDivisionError.
Proof.
  apply analyze_all_sites_capex_zero_solar.
  - repeat constructor; eexists; reflexivity.
  - right. left. cbn [snd]. rewrite <- num_0. reflexivity.
Defined.

(** *** X2: the aggregate *)

(** X2.  In the analysis returned, the aggregate capacities are the sums over
    the sites, and the aggregate costs are those of one site with the summed
    capacities: total CAPEX, net CAPEX and OPEX add up, and when the total
    solar capacity is positive the aggregate cost per kW is that site's, the
    cost per MW 1000 times as much.  With a total solar capacity of 0 or less
    both are 0. *)
Theorem analyze_all_sites_capex_aggregate
    (site_capacities : list (string * gmap string Qc))
    (annual_revenues : list (string * Qc)) (a : Analysis.t) :
  analyze_all_sites_capex site_capacities annual_revenues = Ok a →
  let aggregate := Analysis.aggregate a in
  Aggregate.total_solar_kw aggregate = total_of "solar_kw" site_capacities
  ∧ Aggregate.total_battery_kw aggregate = total_of "battery_kw" site_capacities
  ∧ Aggregate.total_battery_kwh aggregate = total_of "battery_kwh" site_capacities
  ∧ (Aggregate.total_solar_kw aggregate ≠ 0 →
     ∃ c, calculate_site_capex (Aggregate.total_solar_kw aggregate)
                               (Aggregate.total_battery_kw aggregate)
                               (Aggregate.total_battery_kwh aggregate) = Ok c
          ∧ Aggregate.total_capex aggregate = total_capex c
          ∧ Aggregate.total_net_capex aggregate = net_capex c
          ∧ Aggregate.total_opex aggregate = annual_opex c
          ∧ (0 < Aggregate.total_solar_kw aggregate →
             Aggregate.cost_per_kw aggregate = cost_per_kw c
             ∧ Aggregate.cost_per_mw aggregate = cost_per_kw c * num 1000))
  ∧ (¬ 0 < Aggregate.total_solar_kw aggregate →
     Aggregate.cost_per_kw aggregate = num 0 ∧ Aggregate.cost_per_mw aggregate = num 0).
Proof.
  intros H aggregate. subst aggregate.
  apply analyze_all_sites_capex_inv in H as (st & Hst & _ & _ & ->).
  cbn [Aggregate.total_solar_kw Aggregate.total_battery_kw Aggregate.total_battery_kwh
       Aggregate.total_capex Aggregate.total_net_capex Aggregate.total_opex
       Aggregate.cost_per_kw Aggregate.cost_per_mw].
  apply site_loop_totals in Hst as (E1 & E2 & E3 & E4 & E5 & E6).
  cbn in E1, E2, E3, E4, E5, E6. rewrite num_0 in E1, E2, E3, E4, E5, E6.
  rewrite Qcplus_0_l in E1, E2, E3, E4, E5, E6.
  split_and!; [exact E1 | exact E2 | exact E3 | |].
  - intros Hs.
    destruct (calculate_site_capex_Ok _ (Running.total_battery_kw st)
                (Running.total_battery_kwh st) Hs) as (c & Hc & Ht & Hn & Ho & _ & Hk).
    exists c. split; [exact Hc|].
    rewrite Hn, Ht, Ho, E4, E5, E6, E1, E2, E3.
    split_and!; [reflexivity | reflexivity | reflexivity |].
    intros Hpos. rewrite !decide_True by exact Hpos.
    rewrite Hk, Ht, ?E1, ?E2, ?E3. by split.
  - intros Hneg. rewrite !decide_False by exact Hneg. by split.
Qed.

Lemma analyze_all_sites_capex_aggregate_witness :
  ∃ a, analyze_all_sites_capex example_site_capacities example_annual_revenues = Ok a
       ∧ Aggregate.total_solar_kw (Analysis.aggregate a) = num 1730
       ∧ Aggregate.total_battery_kw (Analysis.aggregate a) = num 1730
       ∧ Aggregate.total_battery_kwh (Analysis.aggregate a) = num 3460.
Proof.
  destruct (site_loop_returns example_site_capacities initial_running example_sites_keyed)
    as (st & Hst).
  destruct (analyze_all_sites_capex_Ok example_site_capacities example_annual_revenues
              st Hst) as (a & E).
  exists a. split; [exact E|].
  destruct (analyze_all_sites_capex_aggregate _ _ a E) as (E1 & E2 & E3 & _).
  rewrite E1, E2, E3. split_and!; by apply Qc_is_canon.
Defined.

(** *** X3: the per-site entries *)

(** X3.  In the analysis returned for sites with distinct names, the keys of
    ['sites'] are the site names, and each site's entry is the breakdown
    [calculate_site_capex] returns for that site's own capacities. *)
Theorem analyze_all_sites_capex_sites
    (site_capacities : list (string * gmap string Qc))
    (annual_revenues : list (string * Qc)) (a : Analysis.t) :
  analyze_all_sites_capex site_capacities annual_revenues = Ok a →
  NoDup site_capacities.*1 →
  dom (Analysis.sites a) = list_to_set site_capacities.*1
  ∧ ∀ name capacities, (name, capacities) ∈ site_capacities →
      ∃ s p e c, capacities_of capacities = Some (s, p, e)
                 ∧ calculate_site_capex s p e = Ok c
                 ∧ Analysis.sites a !! name = Some c.
Proof.
  intros H Hnd. apply analyze_all_sites_capex_inv in H as (st & Hst & _ & -> & _).
  destruct (site_loop_sites _ _ _ Hst Hnd) as (Hout & Hin). split; [|exact Hin].
  apply set_eq. intros name. rewrite elem_of_dom, elem_of_list_to_set. split.
  - intros Hsome. destruct (decide (name ∈ site_capacities.*1)) as [|Hname]; [done|].
    rewrite Hout in Hsome by done. cbn in Hsome. rewrite lookup_empty in Hsome.
    by destruct Hsome.
  - intros ((name' & capacities) & -> & Hel)%list_elem_of_fmap.
    destruct (Hin _ _ Hel) as (s & p & e & c & _ & _ & Hc). by exists c.
Qed.

Lemma analyze_all_sites_capex_sites_witness :
  ∃ a c, analyze_all_sites_capex example_site_capacities example_annual_revenues = Ok a
         ∧ calculate_site_capex (num 380) (num 380) (num 760) = Ok c
         ∧ Analysis.sites a !! "Site_B" = Some c.
Proof.
  destruct (site_loop_returns example_site_capacities initial_running example_sites_keyed)
    as (st & Hst).
  destruct (analyze_all_sites_capex_Ok example_site_capacities example_annual_revenues
              st Hst) as (a & E).
  destruct (analyze_all_sites_capex_sites _ _ a E) as (_ & Hin).
  - apply (bool_decide_unpack _). vm_compute. reflexivity.
  - destruct (Hin "Site_B" {[ "solar_kw" := num 380; "battery_kw" := num 380;
                              "battery_kwh" := num 760 ]})
      as (s & p & e & c & Hcaps & Hc & Hlook).
    + right. left.
    + injection Hcaps as <- <- <-. exists a, c. split_and!; [exact E | exact Hc | exact Hlook].
Defined.

(** *** X4: the scenarios *)

(** X4.  In the analysis returned for scenarios with distinct names, every
    scenario is valued against the aggregate OPEX and net CAPEX, and of two
    scenarios the one with the larger annual revenue has the larger or equal
    IRR and NPV. *)
Theorem analyze_all_sites_capex_scenarios
    (site_capacities : list (string * gmap string Qc))
    (annual_revenues : list (string * Qc)) (a : Analysis.t)
    (name1 name2 : string) (revenue1 revenue2 : Qc) :
  analyze_all_sites_capex site_capacities annual_revenues = Ok a →
  NoDup annual_revenues.*1 →
  (name1, revenue1) ∈ annual_revenues →
  (name2, revenue2) ∈ annual_revenues →
  revenue1 ≤ revenue2 →
  ∃ m1 m2,
    Analysis.scenarios a !! name1
    = Some {| Scenario.annual_revenue := revenue1;
              Scenario.annual_opex := Aggregate.total_opex (Analysis.aggregate a);
              Scenario.net_capex := Aggregate.total_net_capex (Analysis.aggregate a);
              Scenario.metrics := m1 |}
    ∧ Analysis.scenarios a !! name2
      = Some {| Scenario.annual_revenue := revenue2;
                Scenario.annual_opex := Aggregate.total_opex (Analysis.aggregate a);
                Scenario.net_capex := Aggregate.total_net_capex (Analysis.aggregate a);
                Scenario.metrics := m2 |}
    ∧ irr m1 ≤ irr m2
    ∧ npv m1 ≤ npv m2.
Proof.
  intros H Hnd Hin1 Hin2 Hle.
  apply analyze_all_sites_capex_inv in H as (st & _ & Hscen & _ & ->).
  cbn [Aggregate.total_opex Aggregate.total_net_capex].
  destruct (scenario_loop_entries _ _ _ _ _ Hscen Hnd) as (_ & Hin).
  destruct (Hin _ _ Hin1) as (m1 & E1 & L1). destruct (Hin _ _ Hin2) as (m2 & E2 & L2).
  exists m1, m2. split; [exact L1|]. split; [exact L2|].
  destruct (irr_monotone revenue1 revenue2 (Running.total_opex st)
              (Running.total_net_capex st) (Running.total_net_capex st)
              default_project_lifetime default_discount_rate
              default_rate_defined Hle (Qcle_refl _))
    as (m1' & m2' & E1' & E2' & Hirr & Hnpv1 & Hnpv2).
  assert (m1' = m1) as -> by congruence. assert (m2' = m2) as -> by congruence.
  split; [exact Hirr|]. rewrite Hnpv1, Hnpv2.
  apply npv_at_mono; [reflexivity | | apply Qcle_refl].
  clear -Hle. qc_lra.
Qed.

Lemma analyze_all_sites_capex_scenarios_witness :
  ∃ a e4 e1,
    analyze_all_sites_capex example_site_capacities example_annual_revenues = Ok a
    ∧ Analysis.scenarios a !! "S4" = Some e4
    ∧ Analysis.scenarios a !! "S1" = Some e1
    ∧ irr (Scenario.metrics e4) ≤ irr (Scenario.metrics e1)
    ∧ npv (Scenario.metrics e4) ≤ npv (Scenario.metrics e1).
Proof.
  destruct (site_loop_returns example_site_capacities initial_running example_sites_keyed)
    as (st & Hst).
  destruct (analyze_all_sites_capex_Ok example_site_capacities example_annual_revenues
              st Hst) as (a & E).
  destruct (analyze_all_sites_capex_scenarios _ _ a "S4" "S1" (num 193000) (num 290000) E)
    as (m4 & m1 & L4 & L1 & Hirr & Hnpv).
  - apply (bool_decide_unpack _). vm_compute. reflexivity.
  - do 3 right. left.
  - left.
  - vm_compute. discriminate.
  - eexists a, _, _. split_and!; [exact E | exact L4 | exact L1 | exact Hirr | exact Hnpv].
Defined.

(** ** [IRROptimizer] *)

Import IrrOptimizer.

Lemma irr_independent_of_rate (rev opex capex : Qc) (life : Z) (dr dr' : Qc) m m' :
  calculate_financial_metrics rev opex capex life dr = Ok m →
  calculate_financial_metrics rev opex capex life dr' = Ok m' →
  irr m = irr m'.
Proof.
  intros (r & (Hr & _) & ->)%metrics_inv (r' & (Hr' & _) & ->)%metrics_inv.
  cbn [irr]. destruct (decide _); [congruence | done].
Qed.

Lemma irr_bounds (rev opex capex : Qc) (life : Z) (dr : Qc) m :
  calculate_financial_metrics rev opex capex life dr = Ok m →
  num 0 ≤ irr m ∧ irr m ≤ frac 1 2.
Proof.
  intros (r & (_ & Hlo & Hhi) & ->)%metrics_inv. cbn [irr].
  destruct (decide _); [done|]. split; [apply Qcle_refl | done].
Qed.

(** *** X5: the IRR as a function of the PPA rate and the CAPEX *)

(** X5.  When the NPV loop divides by no zero and the annual generation is not
    negative, [calculate_irr_from_params] returns an IRR between 0 and 0.5
    that does not fall when the PPA rate rises or the net CAPEX falls. *)
Theorem calculate_irr_from_params_monotone
    (self : IRROptimizer) (ppa_rate ppa_rate' net_capex net_capex' annual_opex : Qc)
    (annual_generation_mwh : option Qc) :
  npv_defined (project_lifetime self) (discount_rate self) →
  0 ≤ default (base_annual_generation_mwh self) annual_generation_mwh →
  ppa_rate ≤ ppa_rate' →
  net_capex' ≤ net_capex →
  ∃ i i',
    calculate_irr_from_params self ppa_rate net_capex annual_opex annual_generation_mwh
    = Ok i
    ∧ calculate_irr_from_params self ppa_rate' net_capex' annual_opex
                                annual_generation_mwh = Ok i'
    ∧ num 0 ≤ i ∧ i ≤ i' ∧ i' ≤ frac 1 2.
Proof.
  intros Hd Hgen Hppa Hcapex. unfold calculate_irr_from_params.
  set (g := match annual_generation_mwh with
            | Some g => g
            | None => base_annual_generation_mwh self
            end).
  assert (Hg : 0 ≤ g) by (subst g; by destruct annual_generation_mwh).
  destruct (irr_monotone (ppa_rate * num 10 * g) (ppa_rate' * num 10 * g) annual_opex
              net_capex net_capex' (project_lifetime self) (discount_rate self) Hd)
    as (m & m' & E & E' & Hirr & _); [|exact Hcapex|].
  - apply Qcmult_le_compat_r; [|exact Hg].
    apply Qcmult_le_compat_r; [exact Hppa|]. by vm_compute.
  - rewrite E, E'. cbn. exists (irr m), (irr m').
    split_and!; [reflexivity | reflexivity | | exact Hirr |].
    + by apply irr_bounds in E as [? _].
    + by apply irr_bounds in E' as [_ ?].
Qed.

Lemma calculate_irr_from_params_monotone_witness :
  ∃ i i',
    calculate_irr_from_params (init (frac 1 10) 25 (frac 8 100))
                              (num 7) (num 4860000) (num 43250) None = Ok i
    ∧ calculate_irr_from_params (init (frac 1 10) 25 (frac 8 100))
                                (num 8) (num 2500000) (num 43250) None = Ok i'
    ∧ num 0 ≤ i ∧ i ≤ i' ∧ i' ≤ frac 1 2.
Proof.
  apply (calculate_irr_from_params_monotone (init (frac 1 10) 25 (frac 8 100))).
  - apply (bool_decide_unpack _). vm_compute. reflexivity.
  - vm_compute. discriminate.
  - vm_compute. discriminate.
  - vm_compute. discriminate.
Defined.

(** *** X6: the discount rate and the IRR *)

(** X6.  The IRR [calculate_irr_from_params] returns depends on neither the
    optimizer's discount rate nor its target IRR: two optimizers of the same
    lifetime that both return, return the same IRR.  (Both return whenever
    every power the loops take at either rate is a float other than 0.0.) *)
Theorem calculate_irr_from_params_discount_rate
    (target target' : Qc) (lifetime : Z) (rate rate' : Qc)
    (ppa_rate net_capex annual_opex : Qc) (annual_generation_mwh : option Qc) :
  (npv_defined lifetime rate → npv_defined lifetime rate' →
   ∃ i i',
     calculate_irr_from_params (init target lifetime rate)
       ppa_rate net_capex annual_opex annual_generation_mwh = Ok i
     ∧ calculate_irr_from_params (init target' lifetime rate')
         ppa_rate net_capex annual_opex annual_generation_mwh = Ok i')
  ∧ (∀ i i',
       calculate_irr_from_params (init target lifetime rate)
         ppa_rate net_capex annual_opex annual_generation_mwh = Ok i →
       calculate_irr_from_params (init target' lifetime rate')
         ppa_rate net_capex annual_opex annual_generation_mwh = Ok i' →
       i = i').
Proof.
  unfold calculate_irr_from_params. cbn [init project_lifetime discount_rate
                                         base_annual_generation_mwh].
  set (g := match annual_generation_mwh with Some g => g | None => num 3219 end).
  split.
  - intros Hd Hd'.
    destruct (calculate_financial_metrics_returns (ppa_rate * num 10 * g) annual_opex
                net_capex lifetime rate Hd) as (r & _ & ->).
    destruct (calculate_financial_metrics_returns (ppa_rate * num 10 * g) annual_opex
                net_capex lifetime rate' Hd') as (r' & _ & ->).
    cbn [mbind result_bind]. eauto.
  - intros i i' H H'.
    apply bind_Ok in H as (m & E & [= <-]). apply bind_Ok in H' as (m' & E' & [= <-]).
    exact (irr_independent_of_rate _ _ _ _ _ _ _ _ E E').
Qed.

Lemma calculate_irr_from_params_discount_rate_witness :
  ∃ i, calculate_irr_from_params (init (frac 1 10) 25 (frac 8 100))
         (frac 15 2) (num 2500000) (num 43250) None = Ok i
       ∧ calculate_irr_from_params (init (frac 1 5) 25 (frac 3 100))
           (frac 15 2) (num 2500000) (num 43250) None = Ok i.
Proof.
  destruct (calculate_irr_from_params_discount_rate
              (frac 1 10) (frac 1 5) 25 (frac 8 100) (frac 3 100)
              (frac 15 2) (num 2500000) (num 43250) None) as [Hreturns Hsame].
  destruct Hreturns as (i & i' & E & E').
  - apply (bool_decide_unpack _). vm_compute. reflexivity.
  - apply (bool_decide_unpack _). vm_compute. reflexivity.
  - exists i. split; [exact E|]. rewrite (Hsame i i' E E'). exact E'.
Defined.

(** ** The battery search *)

Lemma irr_above_minus_one (rev opex capex : Qc) (life : Z) (dr : Qc) m :
  calculate_financial_metrics rev opex capex life dr = Ok m → - num 1 < irr m.
Proof.
  intros [H _]%irr_bounds. apply Qclt_le_trans with (num 0); [reflexivity | exact H].
Qed.

Lemma calculate_financial_metrics_Ok (rev opex capex : Qc) (life : Z) (dr : Qc) :
  npv_defined life dr → ∃ m, calculate_financial_metrics rev opex capex life dr = Ok m.
Proof.
  intros Hd.
  destruct (calculate_financial_metrics_returns rev opex capex life dr Hd) as (r & _ & E).
  eauto.
Qed.

Section battery_search.

Context (self : IRROptimizer) (ppa_rate : Qc).
Context (Hdefined : npv_defined (project_lifetime self) (discount_rate self)).

Local Abbreviation revenue := (ppa_rate * num 10 * base_annual_generation_mwh self).
Local Abbreviation opex := (num 1730 * base_opex_per_kw self).

Lemma battery_step_sized_spec (duration power_frac : Qc)
    (best : option BatterySolution.t * Qc) :
  ∃ m,
    calculate_financial_metrics revenue opex (sized_net_capex power_frac duration)
      (project_lifetime self) (discount_rate self) = Ok m
    ∧ battery_step_sized self ppa_rate duration power_frac best
      = Ok (if decide (best.2 < irr m)
            then (Some {| BatterySolution.battery_kw := num 1730 * power_frac;
                          BatterySolution.battery_kwh := num 1730 * power_frac * duration;
                          BatterySolution.duration_hours := duration;
                          BatterySolution.power_fraction := power_frac;
                          BatterySolution.net_capex := sized_net_capex power_frac duration;
                          BatterySolution.irr := irr m;
                          BatterySolution.payback_years := payback_years m;
                          BatterySolution.npv := npv m;
                          BatterySolution.battery_cost :=
                            sized_battery_cost power_frac duration |},
                  irr m)
            else best).
Proof.
  destruct (calculate_financial_metrics_Ok revenue opex
              (sized_net_capex power_frac duration)
              (project_lifetime self) (discount_rate self) Hdefined) as (m & E).
  exists m. split; [exact E|].
  destruct best as [best_solution best_irr]. unfold battery_step_sized.
  destruct (calculate_site_capex_Ok (num 1730) (num 1730 * power_frac)
              (num 1730 * power_frac * duration)) as (c & -> & Ht & Hn & _ & Hb & _).
  { by vm_compute. }
  cbn [mbind result_bind]. rewrite Hn, Ht. fold (sized_net_capex power_frac duration).
  rewrite E. cbn [mbind result_bind snd].
  destruct (decide _); [|reflexivity].
  rewrite Hb. do 3 f_equal. unfold sized_battery_cost. f_equal. ring.
Qed.

Lemma battery_step_scaled_spec (base_site_capex : costs) (base_net_capex capex_scale : Qc)
    (duration power_frac : Qc) (best : option BatterySolution.t * Qc) :
  let estimated_net_capex :=
    sized_battery_cost power_frac duration * capex_scale
    + (base_net_capex - battery_total base_site_capex) * capex_scale in
  ∃ m,
    calculate_financial_metrics revenue opex estimated_net_capex
      (project_lifetime self) (discount_rate self) = Ok m
    ∧ battery_step_scaled self ppa_rate base_site_capex base_net_capex capex_scale
                          duration power_frac best
      = Ok (if decide (best.2 < irr m)
            then (Some {| BatterySolution.battery_kw := num 1730 * power_frac;
                          BatterySolution.battery_kwh := num 1730 * power_frac * duration;
                          BatterySolution.duration_hours := duration;
                          BatterySolution.power_fraction := power_frac;
                          BatterySolution.net_capex := estimated_net_capex;
                          BatterySolution.irr := irr m;
                          BatterySolution.payback_years := payback_years m;
                          BatterySolution.npv := npv m;
                          BatterySolution.battery_cost :=
                            sized_battery_cost power_frac duration * capex_scale |},
                  irr m)
            else best).
Proof.
  intros estimated_net_capex.
  destruct (calculate_financial_metrics_Ok revenue opex estimated_net_capex
              (project_lifetime self) (discount_rate self) Hdefined) as (m & E).
  exists m. split; [exact E|].
  destruct best as [best_solution best_irr]. unfold battery_step_scaled.
  cbn [COST_ASSUMPTIONS battery_storage_cost_per_kwh battery_storage_cost_per_kw].
  fold (sized_battery_cost power_frac duration). fold estimated_net_capex.
  rewrite E. cbn [mbind result_bind snd].
  destruct (decide _); reflexivity.
Qed.

(** A search step that may only replace the best solution by a candidate of
    larger IRR leaves it alone when the candidate costs as much or more. *)
Lemma keep_best (capex1 capex : Qc) m1 m (sol1 sol : BatterySolution.t) :
  calculate_financial_metrics revenue opex capex1
    (project_lifetime self) (discount_rate self) = Ok m1 →
  calculate_financial_metrics revenue opex capex
    (project_lifetime self) (discount_rate self) = Ok m →
  capex1 ≤ capex →
  (if decide ((Some sol1, irr m1).2 < irr m) then (Some sol, irr m) else (Some sol1, irr m1))
  = (Some sol1, irr m1).
Proof.
  intros E1 E Hle.
  destruct (irr_monotone revenue revenue opex capex capex1
              (project_lifetime self) (discount_rate self) Hdefined (Qcle_refl _) Hle)
    as (m' & m1' & E' & E1' & Hirr & _).
  assert (m' = m) as -> by congruence. assert (m1' = m1) as -> by congruence.
  rewrite decide_False; [reflexivity|]. cbn [snd]. by apply Qcle_not_lt.
Qed.

End battery_search.

Lemma sized_net_capex_smallest : sized_net_capex (frac 1 2) (frac 1 2) = num 4709925.
Proof. by apply Qc_is_canon. Qed.

Lemma sized_battery_cost_smallest : sized_battery_cost (frac 1 2) (frac 1 2) = num 865000.
Proof. by apply Qc_is_canon. Qed.

(** *** X7: the battery search without a target CAPEX *)

(** X7.  Without a target CAPEX ([None] or 0), whatever the PPA rate, the
    search over 24 batteries returns the first and smallest one, 865 kW for
    half an hour (432.5 kWh), with a net CAPEX of 4,709,925: every other
    battery costs more at the same revenue, so none has a strictly larger
    IRR.  The default solution of the last lines is never built. *)
Theorem optimize_battery_sizing_without_target
    (self : IRROptimizer) (ppa_rate : Qc) (target_capex : option Qc) :
  npv_defined (project_lifetime self) (discount_rate self) →
  target_capex = None ∨ target_capex = Some 0 →
  ∃ m,
    calculate_financial_metrics
      (ppa_rate * num 10 * base_annual_generation_mwh self)
      (num 1730 * base_opex_per_kw self) (num 4709925)
      (project_lifetime self) (discount_rate self) = Ok m
    ∧ optimize_battery_sizing self ppa_rate target_capex
      = Ok {| BatterySolution.battery_kw := num 865;
              BatterySolution.battery_kwh := frac 865 2;
              BatterySolution.duration_hours := frac 1 2;
              BatterySolution.power_fraction := frac 1 2;
              BatterySolution.net_capex := num 4709925;
              BatterySolution.irr := irr m;
              BatterySolution.payback_years := payback_years m;
              BatterySolution.npv := npv m;
              BatterySolution.battery_cost := num 865000 |}.
Proof.
  intros Hd Htarget.
  assert (Htruthy : truthy target_capex = None).
  { destruct Htarget as [-> | ->]; [reflexivity|]. unfold truthy. by rewrite decide_True. }
  destruct (battery_step_sized_spec self ppa_rate Hd (frac 1 2) (frac 1 2) (None, - num 1))
    as (m1 & E1 & S1).
  rewrite decide_True in S1 by (cbn [snd]; by eapply irr_above_minus_one).
  set (sol1 := {| BatterySolution.battery_kw := num 1730 * frac 1 2 |}) in S1.
  assert (Hkeep : ∀ d f, sized_net_capex (frac 1 2) (frac 1 2) ≤ sized_net_capex f d →
            battery_step_sized self ppa_rate d f (Some sol1, irr m1) = Ok (Some sol1, irr m1)).
  { intros d f Hle.
    destruct (battery_step_sized_spec self ppa_rate Hd d f (Some sol1, irr m1))
      as (m & E & ->).
    f_equal. by eapply keep_best. }
  exists m1. split; [by rewrite <- sized_net_capex_smallest|].
  unfold optimize_battery_sizing. rewrite Htruthy. cbn [for_each].
  rewrite S1. cbn [mbind result_bind].
  repeat (rewrite Hkeep by (vm_compute; discriminate); cbn [mbind result_bind]).
  cbn [fst]. subst sol1. rewrite sized_net_capex_smallest, sized_battery_cost_smallest.
  do 2 f_equal; by apply Qc_is_canon.
Qed.

Lemma optimize_battery_sizing_without_target_witness :
  ∃ sol, optimize_battery_sizing (init (frac 1 10) 25 (frac 8 100)) (frac 15 2) None = Ok sol
         ∧ BatterySolution.battery_kw sol = num 865
         ∧ BatterySolution.battery_kwh sol = frac 865 2.
Proof.
  destruct (optimize_battery_sizing_without_target
              (init (frac 1 10) 25 (frac 8 100)) (frac 15 2) None) as (m & _ & E).
  - apply (bool_decide_unpack _). vm_compute. reflexivity.
  - left. reflexivity.
  - eexists. split; [exact E|]. split; reflexivity.
Defined.

(** *** X8: the battery search with a target CAPEX *)

(** X8.  With a positive target CAPEX, whatever the PPA rate, the search over
    12 batteries returns the first and smallest one, 865 kW for half an hour,
    and reports as its net CAPEX the target scaled by 5,042,950 / 6,945,950
    (the smallest battery's share of the reference system's cost), not the
    target itself. *)
Theorem optimize_battery_sizing_with_target
    (self : IRROptimizer) (ppa_rate target_capex : Qc) :
  npv_defined (project_lifetime self) (discount_rate self) →
  0 < target_capex →
  ∃ m,
    calculate_financial_metrics
      (ppa_rate * num 10 * base_annual_generation_mwh self)
      (num 1730 * base_opex_per_kw self)
      (num 5042950 * (target_capex / num 6945950))
      (project_lifetime self) (discount_rate self) = Ok m
    ∧ optimize_battery_sizing self ppa_rate (Some target_capex)
      = Ok {| BatterySolution.battery_kw := num 865;
              BatterySolution.battery_kwh := frac 865 2;
              BatterySolution.duration_hours := frac 1 2;
              BatterySolution.power_fraction := frac 1 2;
              BatterySolution.net_capex := num 5042950 * (target_capex / num 6945950);
              BatterySolution.irr := irr m;
              BatterySolution.payback_years := payback_years m;
              BatterySolution.npv := npv m;
              BatterySolution.battery_cost := num 865000 * (target_capex / num 6945950) |}.
Proof.
  intros Hd Htarget.
  assert (Htruthy : truthy (Some target_capex) = Some target_capex).
  { unfold truthy. rewrite decide_False; [reflexivity|].
    intros ->. by apply (Qclt_not_eq 0 0). }
  destruct (calculate_site_capex_Ok (num 1730) (num 1730) (num 1730 * frac 2 1))
    as (base & Ebase & Ht & Hn & _ & Hb & _); [by vm_compute|].
  assert (Hnet : net_capex base = num 6945950).
  { rewrite Hn, Ht. by apply Qc_is_canon. }
  assert (Hbattery : battery_total base = num 2768000).
  { rewrite Hb. by apply Qc_is_canon. }
  set (scale := target_capex / num 6945950).
  assert (Hscale : 0 ≤ scale).
  { apply Qclt_le_weak. apply Qcmult_pos_pos; [exact Htarget|]. by apply Qcinv_pos. }
  destruct (battery_step_scaled_spec self ppa_rate Hd base (num 6945950) scale
              (frac 1 2) (frac 1 2) (None, - num 1)) as (m1 & E1 & S1).
  rewrite decide_True in S1 by (cbn [snd]; by eapply irr_above_minus_one).
  set (sol1 := {| BatterySolution.battery_kw := num 1730 * frac 1 2 |}) in S1.
  assert (Hkeep : ∀ d f, sized_battery_cost (frac 1 2) (frac 1 2) ≤ sized_battery_cost f d →
            battery_step_scaled self ppa_rate base (num 6945950) scale d f
                                (Some sol1, irr m1) = Ok (Some sol1, irr m1)).
  { intros d f Hle.
    destruct (battery_step_scaled_spec self ppa_rate Hd base (num 6945950) scale d f
                (Some sol1, irr m1)) as (m & E & ->).
    f_equal. eapply keep_best; [exact Hd | exact E1 | exact E |].
    apply Qcplus_le_compat; [|apply Qcle_refl].
    by apply Qcmult_le_compat_r. }
  assert (Hcapex : sized_battery_cost (frac 1 2) (frac 1 2) * scale
                   + (num 6945950 - battery_total base) * scale = num 5042950 * scale).
  { rewrite Hbattery, sized_battery_cost_smallest. clearbody scale. clear. qc_lra. }
  rewrite Hcapex in E1.
  exists m1. split; [exact E1|].
  unfold optimize_battery_sizing. rewrite Htruthy, Ebase. cbn [mbind result_bind].
  rewrite Hnet. rewrite truediv_ok by (by vm_compute). cbn [mbind result_bind].
  fold scale. cbn [for_each].
  rewrite S1. cbn [mbind result_bind].
  repeat (rewrite Hkeep by (vm_compute; discriminate); cbn [mbind result_bind]).
  cbn [fst]. subst sol1. rewrite Hcapex, sized_battery_cost_smallest.
  do 2 f_equal; by apply Qc_is_canon.
Qed.

Lemma optimize_battery_sizing_with_target_witness :
  ∃ sol, optimize_battery_sizing (init (frac 1 10) 25 (frac 8 100)) (frac 15 2)
                                 (Some (num 2500000)) = Ok sol
         ∧ BatterySolution.battery_kw sol = num 865
         ∧ BatterySolution.net_capex sol = num 5042950 * (num 2500000 / num 6945950).
Proof.
  destruct (optimize_battery_sizing_with_target
              (init (frac 1 10) 25 (frac 8 100)) (frac 15 2) (num 2500000)) as (m & _ & E).
  - apply (bool_decide_unpack _). vm_compute. reflexivity.
  - reflexivity.
  - eexists. split; [exact E|]. split; reflexivity.
Defined.

(** ** The revenue search *)

Lemma for_each_last {A S} (P F : S → Prop) (Q : A → Prop)
    (xs : list A) (x : A) (body : A → S → result S) (st : S) :
  Forall Q xs → P st →
  (∀ y st, Q y → P st → ∃ st', body y st = Ok st' ∧ P st') →
  (∀ st, P st → ∃ st', body x st = Ok st' ∧ P st' ∧ F st') →
  ∃ st', for_each (xs ++ [x]) body st = Ok st' ∧ P st' ∧ F st'.
Proof.
  intros Hxs Hst Hbody Hlast. rewrite for_each_app.
  destruct (for_each_invariant P Q xs body st Hxs Hst Hbody) as (st1 & -> & Hst1).
  cbn. destruct (Hlast st1 Hst1) as (st' & -> & Hst'). cbn. eauto.
Qed.

Lemma digital_twin_loop (base_revenue platform_fee_revenue grid_services ev_charging
    rec_sales : Qc) (st : RevenueSearch.t) :
  for_each digital_twin_options
    (digital_twin_step base_revenue platform_fee_revenue grid_services ev_charging rec_sales)
    st
  = Ok {| RevenueSearch.best_solution := RevenueSearch.best_solution st;
          RevenueSearch.best_irr := RevenueSearch.best_irr st;
          RevenueSearch.digital_twin := Some (num 100000);
          RevenueSearch.total_revenue :=
            Some (base_revenue + grid_services + ev_charging + rec_sales
                  + platform_fee_revenue + num 100000) |}.
Proof. reflexivity. Qed.

Lemma revenue_le (b fee d g e r g' e' r' : Qc) :
  g ≤ g' → e ≤ e' → r ≤ r' →
  b + g + e + r + fee + d ≤ b + g' + e' + r' + fee + d.
Proof. intros Hg He Hr. qc_lra. Qed.

Section revenue_search.

Context (self : IRROptimizer) (base_ppa target_capex : Qc) (include_platform_fees : bool).
Context (Hdefined : npv_defined (project_lifetime self) (discount_rate self)).

Local Abbreviation base_revenue := (base_ppa * num 10 * base_annual_generation_mwh self).
Local Abbreviation platform_fee_revenue :=
  (if include_platform_fees
   then frac 4 10 * base_annual_generation_mwh self * frac 15 10 * num 10
   else num 0).
Local Abbreviation revenue_of grid_services ev_charging rec_sales :=
  (base_revenue + grid_services + ev_charging + rec_sales + platform_fee_revenue
   + num 100000).
Local Abbreviation step :=
  (rec_sales_step self base_ppa (num 43000) base_revenue platform_fee_revenue target_capex).

(** What the search keeps true of its best solution, [best] being the IRR of
    the largest revenue. *)
Local Abbreviation kept best st :=
  (RevenueSearch.best_irr st ≤ best
   ∧ (∀ sol, RevenueSearch.best_solution st = Some sol →
       RevenueSolution.irr sol = RevenueSearch.best_irr st
       ∧ RevenueSolution.digital_twin_licensing sol = num 100000
       ∧ RevenueSolution.total_revenue sol
         = RevenueSolution.base_revenue sol + RevenueSolution.grid_services sol
           + RevenueSolution.ev_charging sol + RevenueSolution.rec_sales sol
           + RevenueSolution.platform_fees sol
           + RevenueSolution.digital_twin_licensing sol)
   ∧ (RevenueSearch.best_solution st = None → RevenueSearch.best_irr st = - num 1)).

Local Abbreviation found best st :=
  (RevenueSearch.best_irr st = best ∧ is_Some (RevenueSearch.best_solution st)).

Lemma rec_sales_step_spec (grid_services ev_charging rec_sales : Qc) (st : RevenueSearch.t) :
  ∃ m,
    calculate_financial_metrics (revenue_of grid_services ev_charging rec_sales)
      (num 43000) target_capex (project_lifetime self) (discount_rate self) = Ok m
    ∧ step grid_services ev_charging rec_sales st
      = Ok {| RevenueSearch.best_solution :=
                if decide (RevenueSearch.best_irr st < irr m)
                then Some {| RevenueSolution.base_ppa := base_ppa;
                             RevenueSolution.base_revenue := base_revenue;
                             RevenueSolution.platform_fees := platform_fee_revenue;
                             RevenueSolution.grid_services := grid_services;
                             RevenueSolution.ev_charging := ev_charging;
                             RevenueSolution.rec_sales := rec_sales;
                             RevenueSolution.digital_twin_licensing := num 100000;
                             RevenueSolution.total_revenue :=
                               revenue_of grid_services ev_charging rec_sales;
                             RevenueSolution.net_capex := target_capex;
                             RevenueSolution.irr := irr m;
                             RevenueSolution.payback_years := payback_years m;
                             RevenueSolution.npv := npv m |}
                else RevenueSearch.best_solution st;
              RevenueSearch.best_irr :=
                if decide (RevenueSearch.best_irr st < irr m) then irr m
                else RevenueSearch.best_irr st;
              RevenueSearch.digital_twin := Some (num 100000);
              RevenueSearch.total_revenue :=
                Some (revenue_of grid_services ev_charging rec_sales) |}.
Proof.
  destruct (calculate_financial_metrics_Ok
              (revenue_of grid_services ev_charging rec_sales) (num 43000) target_capex
              (project_lifetime self) (discount_rate self) Hdefined) as (m & E).
  exists m. split; [exact E|].
  unfold rec_sales_step. rewrite digital_twin_loop, bind_Ok_l.
  cbn [RevenueSearch.total_revenue RevenueSearch.best_irr
       RevenueSearch.digital_twin RevenueSearch.best_solution].
  rewrite bind_Ok_l, E, bind_Ok_l.
  destruct (decide (RevenueSearch.best_irr st < irr m)); [rewrite bind_Ok_l|]; reflexivity.
Qed.

Lemma rec_sales_step_kept (mmax : metrics) (grid_services ev_charging rec_sales : Qc)
    (st : RevenueSearch.t) :
  calculate_financial_metrics (revenue_of (num 100000) (num 50000) (num 30000))
    (num 43000) target_capex (project_lifetime self) (discount_rate self) = Ok mmax →
  grid_services ≤ num 100000 → ev_charging ≤ num 50000 → rec_sales ≤ num 30000 →
  kept (irr mmax) st →
  ∃ st', step grid_services ev_charging rec_sales st = Ok st' ∧ kept (irr mmax) st'.
Proof.
  intros Emax Hg He Hr (Hbest & Hsol & Hnone).
  destruct (rec_sales_step_spec grid_services ev_charging rec_sales st) as (m & E & ->).
  eexists. split; [reflexivity|].
  cbn [RevenueSearch.best_irr RevenueSearch.best_solution].
  destruct (irr_monotone (revenue_of grid_services ev_charging rec_sales)
              (revenue_of (num 100000) (num 50000) (num 30000)) (num 43000)
              target_capex target_capex (project_lifetime self) (discount_rate self)
              Hdefined) as (m' & mmax' & E' & Emax' & Hirr & _);
    [by apply revenue_le | apply Qcle_refl |].
  assert (m' = m) as -> by congruence. assert (mmax' = mmax) as -> by congruence.
  destruct (decide (RevenueSearch.best_irr st < irr m)) as [Hlt|Hge].
  - split_and!; [exact Hirr | | done]. intros sol [= <-]. by cbn.
  - split_and!; [exact Hbest | exact Hsol | exact Hnone].
Qed.

Lemma rec_sales_step_found (mmax : metrics) (st : RevenueSearch.t) :
  calculate_financial_metrics (revenue_of (num 100000) (num 50000) (num 30000))
    (num 43000) target_capex (project_lifetime self) (discount_rate self) = Ok mmax →
  kept (irr mmax) st →
  ∃ st', step (num 100000) (num 50000) (num 30000) st = Ok st'
         ∧ kept (irr mmax) st' ∧ found (irr mmax) st'.
Proof.
  intros Emax (Hbest & Hsol & Hnone).
  destruct (rec_sales_step_spec (num 100000) (num 50000) (num 30000) st) as (m & E & ->).
  assert (m = mmax) as -> by congruence.
  eexists. split; [reflexivity|].
  cbn [RevenueSearch.best_irr RevenueSearch.best_solution].
  destruct (decide (RevenueSearch.best_irr st < irr mmax)) as [Hlt|Hge].
  - split_and!; [apply Qcle_refl | | done | reflexivity | by eexists].
    intros sol [= <-]. by cbn.
  - assert (Heq : RevenueSearch.best_irr st = irr mmax).
    { apply Qcle_antisym; [exact Hbest | by apply Qcnot_lt_le]. }
    split_and!; [exact Hbest | exact Hsol | exact Hnone | exact Heq |].
    destruct (RevenueSearch.best_solution st) as [sol|]; [by eexists|].
    exfalso. apply Hge. rewrite Hnone by reflexivity. by eapply irr_above_minus_one.
Qed.

Lemma rec_sales_loop_kept (mmax : metrics) (grid_services ev_charging : Qc)
    (st : RevenueSearch.t) :
  calculate_financial_metrics (revenue_of (num 100000) (num 50000) (num 30000))
    (num 43000) target_capex (project_lifetime self) (discount_rate self) = Ok mmax →
  grid_services ≤ num 100000 → ev_charging ≤ num 50000 →
  kept (irr mmax) st →
  ∃ st', for_each rec_sales_options (step grid_services ev_charging) st = Ok st'
         ∧ kept (irr mmax) st'.
Proof.
  intros Emax Hg He Hst.
  apply (for_each_invariant (fun st => kept (irr mmax) st) (fun r => r ≤ num 30000)).
  - unfold rec_sales_options. repeat constructor; by vm_compute.
  - exact Hst.
  - intros r st0 Hr Hst0. by apply rec_sales_step_kept.
Qed.

Lemma rec_sales_loop_found (mmax : metrics) (st : RevenueSearch.t) :
  calculate_financial_metrics (revenue_of (num 100000) (num 50000) (num 30000))
    (num 43000) target_capex (project_lifetime self) (discount_rate self) = Ok mmax →
  kept (irr mmax) st →
  ∃ st', for_each rec_sales_options (step (num 100000) (num 50000)) st = Ok st'
         ∧ kept (irr mmax) st' ∧ found (irr mmax) st'.
Proof.
  intros Emax Hst.
  change rec_sales_options with ([num 0; num 10000; num 20000] ++ [num 30000]).
  apply (for_each_last (fun st => kept (irr mmax) st) (fun st => found (irr mmax) st)
                       (fun r => r ≤ num 30000)).
  - repeat constructor; by vm_compute.
  - exact Hst.
  - intros r st0 Hr Hst0. apply rec_sales_step_kept; [exact Emax | | | exact Hr | exact Hst0].
    + apply Qcle_refl.
    + apply Qcle_refl.
  - intros st0 Hst0. by apply rec_sales_step_found.
Qed.

Lemma ev_charging_loop_kept (mmax : metrics) (grid_services : Qc) (st : RevenueSearch.t) :
  calculate_financial_metrics (revenue_of (num 100000) (num 50000) (num 30000))
    (num 43000) target_capex (project_lifetime self) (discount_rate self) = Ok mmax →
  grid_services ≤ num 100000 →
  kept (irr mmax) st →
  ∃ st', for_each ev_charging_options
           (fun ev_charging => for_each rec_sales_options (step grid_services ev_charging))
           st = Ok st'
         ∧ kept (irr mmax) st'.
Proof.
  intros Emax Hg Hst.
  apply (for_each_invariant (fun st => kept (irr mmax) st) (fun e => e ≤ num 50000)).
  - unfold ev_charging_options. repeat constructor; by vm_compute.
  - exact Hst.
  - intros e st0 He Hst0. by apply rec_sales_loop_kept.
Qed.

Lemma ev_charging_loop_found (mmax : metrics) (st : RevenueSearch.t) :
  calculate_financial_metrics (revenue_of (num 100000) (num 50000) (num 30000))
    (num 43000) target_capex (project_lifetime self) (discount_rate self) = Ok mmax →
  kept (irr mmax) st →
  ∃ st', for_each ev_charging_options
           (fun ev_charging => for_each rec_sales_options (step (num 100000) ev_charging))
           st = Ok st'
         ∧ kept (irr mmax) st' ∧ found (irr mmax) st'.
Proof.
  intros Emax Hst.
  change ev_charging_options
    with ([num 0; num 10000; num 20000; num 30000] ++ [num 50000]).
  apply (for_each_last (fun st => kept (irr mmax) st) (fun st => found (irr mmax) st)
                       (fun e => e ≤ num 50000)).
  - repeat constructor; by vm_compute.
  - exact Hst.
  - intros e st0 He Hst0.
    apply rec_sales_loop_kept; [exact Emax | apply Qcle_refl | exact He | exact Hst0].
  - intros st0 Hst0. by apply rec_sales_loop_found.
Qed.

Lemma grid_services_loop_found (mmax : metrics) (st : RevenueSearch.t) :
  calculate_financial_metrics (revenue_of (num 100000) (num 50000) (num 30000))
    (num 43000) target_capex (project_lifetime self) (discount_rate self) = Ok mmax →
  kept (irr mmax) st →
  ∃ st', for_each grid_services_options
           (fun grid_services =>
              for_each ev_charging_options
                (fun ev_charging =>
                   for_each rec_sales_options (step grid_services ev_charging)))
           st = Ok st'
         ∧ kept (irr mmax) st' ∧ found (irr mmax) st'.
Proof.
  intros Emax Hst.
  change grid_services_options
    with ([num 0; num 25000; num 50000; num 75000] ++ [num 100000]).
  apply (for_each_last (fun st => kept (irr mmax) st) (fun st => found (irr mmax) st)
                       (fun g => g ≤ num 100000)).
  - repeat constructor; by vm_compute.
  - exact Hst.
  - intros g st0 Hg Hst0. by apply ev_charging_loop_kept.
  - intros st0 Hst0. by apply ev_charging_loop_found.
Qed.

End revenue_search.

(** *** X9: the search over the revenue streams *)

(** X9.  [optimize_with_revenue_streams] returns a solution whose IRR is that
    of the largest revenue of the grid (grid services 100000, EV charging
    50000, REC sales 30000, licensing 100000) and whose
    ['digital_twin_licensing'] is always 100000: the loop over the licensing
    options only assigns [total_revenue], the evaluation comes after it, so
    the four lower options are never evaluated.  The ['total_revenue'] of the
    solution is the sum of its streams. *)
Theorem optimize_with_revenue_streams_best
    (self : IRROptimizer) (base_ppa target_capex : Qc) (include_platform_fees : bool) :
  npv_defined (project_lifetime self) (discount_rate self) →
  ∃ sol m,
    optimize_with_revenue_streams self base_ppa target_capex include_platform_fees
    = Ok (Some sol)
    ∧ calculate_financial_metrics
        (base_ppa * num 10 * base_annual_generation_mwh self
         + num 100000 + num 50000 + num 30000
         + (if include_platform_fees
            then frac 4 10 * base_annual_generation_mwh self * frac 15 10 * num 10
            else num 0)
         + num 100000)
        (num 43000) target_capex (project_lifetime self) (discount_rate self) = Ok m
    ∧ RevenueSolution.irr sol = irr m
    ∧ RevenueSolution.digital_twin_licensing sol = num 100000
    ∧ RevenueSolution.total_revenue sol
      = RevenueSolution.base_revenue sol + RevenueSolution.grid_services sol
        + RevenueSolution.ev_charging sol + RevenueSolution.rec_sales sol
        + RevenueSolution.platform_fees sol + RevenueSolution.digital_twin_licensing sol.
Proof.
  intros Hd.
  destruct (calculate_financial_metrics_Ok
              (base_ppa * num 10 * base_annual_generation_mwh self
               + num 100000 + num 50000 + num 30000
               + (if include_platform_fees
                  then frac 4 10 * base_annual_generation_mwh self * frac 15 10 * num 10
                  else num 0)
               + num 100000)
              (num 43000) target_capex (project_lifetime self) (discount_rate self) Hd)
    as (mmax & Emax).
  destruct (grid_services_loop_found self base_ppa target_capex include_platform_fees Hd mmax
              {| RevenueSearch.best_solution := None;
                 RevenueSearch.best_irr := - num 1;
                 RevenueSearch.digital_twin := None;
                 RevenueSearch.total_revenue := None |} Emax)
    as (st & Est & (_ & Hsol & _) & Hbest & sol & Hsome).
  { cbn [RevenueSearch.best_irr RevenueSearch.best_solution]. split_and!.
    - apply Qclt_le_weak. by eapply irr_above_minus_one.
    - intros sol [=].
    - reflexivity. }
  destruct (Hsol sol Hsome) as (Hirr & Hdt & Htotal).
  exists sol, mmax. split_and!; [|exact Emax | congruence | exact Hdt | exact Htotal].
  unfold optimize_with_revenue_streams. cbv zeta.
  match goal with
  | |- mbind _ ?r = _ => replace r with (Ok st) by (symmetry; exact Est)
  end.
  rewrite bind_Ok_l. by rewrite Hsome.
Qed.

Lemma optimize_with_revenue_streams_best_witness :
  ∃ sol, optimize_with_revenue_streams (init (frac 1 10) 25 (frac 8 100))
           (frac 15 2) (num 2500000) true = Ok (Some sol)
         ∧ RevenueSolution.digital_twin_licensing sol = num 100000.
Proof.
  destruct (optimize_with_revenue_streams_best (init (frac 1 10) 25 (frac 8 100))
              (frac 15 2) (num 2500000) true) as (sol & m & E & _ & _ & Hdt & _).
  - apply (bool_decide_unpack _). vm_compute. reflexivity.
  - exists sol. split; [exact E | exact Hdt].
Defined.

(** ** [analyze_irr_improvements] *)

Import IrrImprovementAnalysis.

Lemma improvement_never_worse (rev rev' opex capex capex' : Qc) (life : Z) (dr : Qc)
    (baseline : metrics) :
  npv_defined life dr →
  calculate_financial_metrics rev opex capex life dr = Ok baseline →
  rev ≤ rev' → capex' ≤ capex →
  ∃ m, calculate_financial_metrics rev' opex capex' life dr = Ok m
       ∧ irr baseline ≤ irr m
       ∧ (- num 1 < dr → npv baseline ≤ npv m).
Proof.
  intros Hd E Hrev Hcapex.
  destruct (irr_monotone rev rev' opex capex capex' life dr Hd Hrev Hcapex)
    as (m0 & m & E0 & E' & Hirr & Hnpv0 & Hnpv).
  assert (m0 = baseline) as -> by congruence.
  exists m. split; [exact E'|]. split; [exact Hirr|].
  intros Hdr. rewrite Hnpv0, Hnpv.
  apply npv_at_mono; [clear -Hdr; qc_lra | clear -Hrev; qc_lra | exact Hcapex].
Qed.

Lemma twelve_ninths : num 12 / num 9 = frac 4 3.
Proof. by apply Qc_is_canon. Qed.

(** *** X10: no improvement scenario is worse than the baseline *)

(** X10.  For a revenue and a net CAPEX that are not negative,
    [analyze_irr_improvements] returns the baseline and ten scenarios, under
    the names below and in this order, and no scenario has a smaller IRR than
    the baseline, nor a smaller NPV when the discount rate is above -1. *)
Theorem analyze_irr_improvements_never_worse
    (base_annual_revenue base_net_capex base_annual_opex : Qc)
    (project_lifetime : Z) (discount_rate : Qc) :
  npv_defined project_lifetime discount_rate →
  0 ≤ base_annual_revenue → 0 ≤ base_net_capex →
  ∃ baseline improvements,
    analyze_irr_improvements base_annual_revenue base_net_capex base_annual_opex
                             project_lifetime discount_rate
    = Ok (("Baseline", baseline) :: improvements)
    ∧ improvements.*1
      = ["+20% Revenue"; "+50% Revenue"; "-20% CAPEX"; "-30% CAPEX"; "Battery Cost -50%";
         "+20% Rev & -20% CAPEX"; "PPA 12¢/kWh"; "+Grid Services"; "Optimize Battery";
         "Best Case"]
    ∧ Forall (fun scenario =>
                irr baseline ≤ irr scenario.2
                ∧ (- num 1 < discount_rate → npv baseline ≤ npv scenario.2))
             improvements.
Proof.
  intros Hd Hrev Hcapex.
  destruct (calculate_financial_metrics_Ok base_annual_revenue base_annual_opex
              base_net_capex project_lifetime discount_rate Hd) as (baseline & E).
  assert (Hup : ∀ rev' capex', base_annual_revenue ≤ rev' → capex' ≤ base_net_capex →
            ∃ m, calculate_financial_metrics rev' base_annual_opex capex'
                   project_lifetime discount_rate = Ok m
                 ∧ irr baseline ≤ irr m
                 ∧ (- num 1 < discount_rate → npv baseline ≤ npv m)).
  { intros rev' capex'. by apply improvement_never_worse. }
  assert (R20 : base_annual_revenue ≤ base_annual_revenue * frac 120 100)
    by (clear -Hrev; qc_lra).
  assert (R50 : base_annual_revenue ≤ base_annual_revenue * frac 150 100)
    by (clear -Hrev; qc_lra).
  assert (R12 : base_annual_revenue ≤ base_annual_revenue * (num 12 / num 9))
    by (rewrite twelve_ninths; clear -Hrev; qc_lra).
  assert (RG : base_annual_revenue ≤ base_annual_revenue + num 50000)
    by (clear; qc_lra).
  assert (C20 : base_net_capex * frac 80 100 ≤ base_net_capex) by (clear -Hcapex; qc_lra).
  assert (C30 : base_net_capex * frac 70 100 ≤ base_net_capex) by (clear -Hcapex; qc_lra).
  assert (CB : base_net_capex - base_net_capex * frac 40 100 * frac 50 100 ≤ base_net_capex)
    by (clear -Hcapex; qc_lra).
  assert (CO : base_net_capex - base_net_capex * frac 40 100 * frac 20 100 ≤ base_net_capex)
    by (clear -Hcapex; qc_lra).
  destruct (Hup _ _ R20 (Qcle_refl _)) as (m1 & E1 & H1).
  destruct (Hup _ _ R50 (Qcle_refl _)) as (m2 & E2 & H2).
  destruct (Hup _ _ (Qcle_refl _) C20) as (m3 & E3 & H3).
  destruct (Hup _ _ (Qcle_refl _) C30) as (m4 & E4 & H4).
  destruct (Hup _ _ (Qcle_refl _) CB) as (m5 & E5 & H5).
  destruct (Hup _ _ R20 C20) as (m6 & E6 & H6).
  destruct (Hup _ _ R12 (Qcle_refl _)) as (m7 & E7 & H7).
  destruct (Hup _ _ RG (Qcle_refl _)) as (m8 & E8 & H8).
  destruct (Hup _ _ (Qcle_refl _) CO) as (m9 & E9 & H9).
  destruct (Hup _ _ R50 C30) as (m10 & E10 & H10).
  exists baseline, [("+20% Revenue", m1); ("+50% Revenue", m2); ("-20% CAPEX", m3);
                    ("-30% CAPEX", m4); ("Battery Cost -50%", m5);
                    ("+20% Rev & -20% CAPEX", m6); ("PPA 12¢/kWh", m7);
                    ("+Grid Services", m8); ("Optimize Battery", m9); ("Best Case", m10)].
  split_and!.
  - unfold analyze_irr_improvements.
    rewrite E, bind_Ok_l, E1, bind_Ok_l, E2, bind_Ok_l, E3, bind_Ok_l, E4, bind_Ok_l,
      E5, bind_Ok_l, E6, bind_Ok_l, E7, bind_Ok_l, E8, bind_Ok_l, E9, bind_Ok_l,
      E10, bind_Ok_l.
    reflexivity.
  - reflexivity.
  - repeat constructor; cbn [snd]; tauto.
Qed.

Lemma analyze_irr_improvements_never_worse_witness :
  ∃ baseline improvements,
    analyze_irr_improvements (num 290000) (num 4860000) (num 43250) 25 (frac 8 100)
    = Ok (("Baseline", baseline) :: improvements)
    ∧ Forall (fun scenario => irr baseline ≤ irr scenario.2) improvements.
Proof.
  destruct (analyze_irr_improvements_never_worse (num 290000) (num 4860000) (num 43250)
              25 (frac 8 100)) as (baseline & improvements & E & _ & H).
  - apply (bool_decide_unpack _). vm_compute. reflexivity.
  - vm_compute. discriminate.
  - vm_compute. discriminate.
  - exists baseline, improvements. split; [exact E|].
    eapply Forall_impl; [exact H|]. intros scenario [Hirr _]. exact Hirr.
Defined.

(** ** [update_capex_analysis] *)

Import RunOptimizedScenarios.

(** *** X11: the two callers of the optimized configuration agree *)

(** X11.  In a store where the configuration is in place,
    [update_capex_analysis] of the archived script and
    [calculate_current_metrics] both return, and return the same metrics:
    those of the configured total revenue, OPEX and net CAPEX over 25 years
    at 8%. *)
Theorem update_capex_analysis_agrees
    (s : gmap positive (gmap string value)) (r : positive) (d : gmap string value)
    (t o c : Qc) :
  config_view s r d t o c →
  ∃ m s1 data s2,
    update_capex_analysis s = Ok (m, s1)
    ∧ calculate_current_metrics s = Ok (data, s2)
    ∧ metrics_of data = m
    ∧ calculate_financial_metrics t o c 25 (frac 8 100) = Ok m.
Proof.
  intros Hview.
  destruct (calculate_financial_metrics_Ok t o c 25 (frac 8 100) default_rate_defined)
    as (m & E).
  exists m, (<[fresh (dom s) := d]> s),
         {| revenue := fresh (dom s); capex := Num c; opex := Num o; metrics_of := m |},
         (<[fresh (dom s) := d]> s).
  split_and!; [| |reflexivity|exact E].
  - unfold update_capex_analysis, get_optimized_capex.
    rewrite (view_net_capex _ _ _ _ _ _ Hview), bind_Ok_l.
    rewrite (get_optimized_revenue_streams_view s r d t o c Hview), bind_Ok_l.
    cbv beta iota.
    rewrite (getitem_Ok _ (fresh (dom s)) d "total" (Num t)); cycle 1.
    { apply lookup_insert_eq. } { apply Hview. }
    rewrite bind_Ok_l.
    rewrite (getitem_insert_fresh _ _ _ _ _ (view_annual_opex _ _ _ _ _ _ Hview)), bind_Ok_l.
    cbn [as_num]. rewrite !bind_Ok_l, E, bind_Ok_l. reflexivity.
  - rewrite (calculate_current_metrics_view s r d t o c Hview), E, bind_Ok_l. reflexivity.
Qed.

Lemma update_capex_analysis_agrees_witness :
  ∃ m s1 data s2,
    update_capex_analysis module_store = Ok (m, s1)
    ∧ calculate_current_metrics module_store = Ok (data, s2)
    ∧ metrics_of data = m.
Proof.
  destruct (update_capex_analysis_agrees module_store revenue_streams_loc revenue_streams
              (num 477000) (num 43000) (num 4710145) module_store_view)
    as (m & s1 & data & s2 & E1 & E2 & Hm & _).
  exists m, s1, data, s2. split; [exact E1|]. split; [exact E2 | exact Hm].
Defined.

(** ** [get_optimized_site_config] *)

(** *** X12: known and unknown sites *)



(** ** [calculate_site_capex] *)

(** *** X13: the cost model is linear in the size of the system *)

(** X13.  Scaling the three capacities of a site by the same factor other than
    0 scales the total CAPEX, the net CAPEX and the annual OPEX by that
    factor and leaves the cost per kW as it was. *)
Theorem calculate_site_capex_scales
    (k solar_capacity_kw battery_power_kw battery_energy_kwh : Qc) (c : costs) :
  k ≠ 0 →
  calculate_site_capex solar_capacity_kw battery_power_kw battery_energy_kwh = Ok c →
  ∃ c', calculate_site_capex (k * solar_capacity_kw) (k * battery_power_kw)
                             (k * battery_energy_kwh) = Ok c'
        ∧ total_capex c' = k * total_capex c
        ∧ net_capex c' = k * net_capex c
        ∧ annual_opex c' = k * annual_opex c
        ∧ cost_per_kw c' = cost_per_kw c.
Proof.
  intros Hk H.
  apply calculate_site_capex_inv in H as (Hs & Ht & Hn & Ho & _ & Hc).
  assert (Hks : k * solar_capacity_kw ≠ 0).
  { intros [?|?]%Qcmult_integral; done. }
  destruct (calculate_site_capex_Ok (k * solar_capacity_kw) (k * battery_power_kw)
              (k * battery_energy_kwh) Hks) as (c' & E & Ht' & Hn' & Ho' & _ & Hc').
  exists c'. split; [exact E|].
  rewrite Hc', Hc, Hn', Hn, Ho', Ho, Ht', Ht. split_and!; try ring.
  by field.
Qed.

Lemma calculate_site_capex_scales_witness :
  ∃ c c', calculate_site_capex (num 550) (num 275) (num 138) = Ok c
          ∧ calculate_site_capex (num 3 * num 550) (num 3 * num 275) (num 3 * num 138)
            = Ok c'
          ∧ total_capex c' = num 3 * total_capex c
          ∧ cost_per_kw c' = cost_per_kw c.
Proof.
  destruct (calculate_site_capex (num 550) (num 275) (num 138)) as [c|e] eqn:E;
    [|vm_compute in E; discriminate].
  destruct (calculate_site_capex_scales (num 3) (num 550) (num 275) (num 138) c)
    as (c' & E' & Ht & _ & _ & Hc).
  - intros H. vm_compute in H. discriminate.
  - exact E.
  - exists c, c'. split; [reflexivity|]. split; [exact E'|]. split; [exact Ht | exact Hc].
Defined.

